(** * spreadsheet-eval: the cell evaluator of [csvManipulation.js]

    A shallow embedding of [src/csvManipulation.js] and the properties of
    its cell-evaluation engine: reference parsing ([getCellIndices]),
    recursive evaluation with content-keyed cycle detection
    ([evaluateCell]), the grid builder ([initializeCells],
    [populateCells]) and the driver ([processCSV]).  [evaluateCSVFile],
    which only reads the file, is not part of the model.

    Modelling conventions.
    - A JavaScript string is a [string]; every character stands for one
      UTF-16 code unit below 256 (the Latin-1 range, which contains every
      character the program gives a meaning to).
    - A JavaScript number is a [number]: an exact integer or [NaN].  The
      program only adds results of [parseInt], so no fraction arises; the
      binary64 rounding of integers beyond 2^53 is not modelled.
    - The grid is a list of rows of strings, as [populateCells] builds
      it.  Reading a column that a row does not have yields [undefined];
      reading a row that the grid does not have throws.
    - [visitedCells] is one mutable [Set]; the model threads its contents
      through every call, together with the console.
    - [console.error] / [console.log] append to a trace; the two places
      that call [evaluateCell] also leave a ghost event in the trace, so
      that statements about which calls happen can be written down.
    - [evaluateCell] is recursive on the referenced cells, not on its
      argument: the model takes a bound on the recursion depth (fuel) and
      the development proves which bound always suffices. *)

From Stdlib Require Import ZArith Ascii String DecimalString.
From stdpp Require Import base decidable option list strings gmap.

Local Open Scope string_scope.
Local Open Scope Z_scope.

Set Warnings "-clear-no-such-hyp".

(** ** JavaScript primitives used by the program *)

Module JS.

(** [c.charCodeAt()] of a single code unit. *)
Definition code (c : ascii) : Z := Z.of_N (N_of_ascii c).

Definition between (lo hi : Z) (c : ascii) : bool :=
  (lo <=? code c) && (code c <=? hi).

(** WhiteSpace and LineTerminator code units below 256: TAB, LF, VT, FF,
    CR, SP and NBSP.  This is the set used by [trim], by [\s] and by the
    string-to-number conversion. *)
Definition is_space (c : ascii) : bool :=
  between 9 13 c || (code c =? 32) || (code c =? 160).

Definition is_upper (c : ascii) : bool := between 65 90 c.
Definition is_digit (c : ascii) : bool := between 48 57 c.

(** Numbers: the values the program's arithmetic can produce.  Integers
    are exact: the model and JavaScript agree while the values stay
    within the safe integers (magnitude at most 2^53); beyond them
    binary64 rounds, and from 2^1024 on it gives Infinity, which the
    model does not have. *)
Inductive number : Type :=
| Int (z : Z)
| NaN.

(** [a + b] and [a - b]: exact on integers, NaN when an operand is NaN. *)
Definition add (a b : number) : number :=
  match a, b with
  | Int x, Int y => Int (x + y)
  | _, _ => NaN
  end.

Definition sub (a b : number) : number :=
  match a, b with
  | Int x, Int y => Int (x - y)
  | _, _ => NaN
  end.

(** [a >= b] and [a < b]; every comparison with NaN is false. *)
Definition geb (a b : number) : bool :=
  match a, b with
  | Int x, Int y => y <=? x
  | _, _ => false
  end.

Definition ltb (a b : number) : bool :=
  match a, b with
  | Int x, Int y => x <? y
  | _, _ => false
  end.

(** [String(n)] for the numbers of the model: all decimal digits, as
    JavaScript prints the integers below 10^21. *)
Definition toString (n : number) : string :=
  match n with
  | Int z => NilZero.string_of_int (Z.to_int z)
  | NaN => "NaN"
  end.

(** [String.fromCharCode(n)]; the program calls it on 65 + column. *)
Definition fromCharCode (n : number) : string :=
  match n with
  | Int z => String (ascii_of_N (Z.to_N (z mod 256))) ""
  | NaN => String (ascii_of_N 0) ""
  end.

(** [s.charCodeAt(0)]: NaN on the empty string. *)
Definition charCodeAt0 (s : string) : number :=
  match s with
  | String c _ => Int (code c)
  | EmptyString => NaN
  end.

(** [s.slice(1)]. *)
Definition slice1 (s : string) : string :=
  match s with
  | String _ r => r
  | EmptyString => ""
  end.

(** [s.trim()], as trimStart followed by trimEnd. *)
Fixpoint trimStart (s : string) : string :=
  match s with
  | String c r => if is_space c then trimStart r else s
  | EmptyString => ""
  end.

Fixpoint trimEnd (s : string) : string :=
  match s with
  | String c r =>
      match trimEnd r with
      | EmptyString => if is_space c then "" else String c ""
      | t => String c t
      end
  | EmptyString => ""
  end.

Definition trim (s : string) : string := trimEnd (trimStart s).

(** [s.replace(/\s+/g, ' ')]: every maximal run of white space becomes
    one space.  [in_run] tells that the previous code unit was white
    space. *)
Fixpoint collapse (in_run : bool) (s : string) : string :=
  match s with
  | String c r =>
      if is_space c
      then (if in_run then collapse true r else String " " (collapse true r))
      else String c (collapse false r)
  | EmptyString => ""
  end.

Definition replace_spaces (s : string) : string := collapse false s.

(** [s.split(sep)] for a non-empty separator: the pieces between the
    non-overlapping occurrences of [sep], found from the left.  [skip]
    counts the code units of a just-matched separator still to be
    dropped. *)
Fixpoint split_from (sep : string) (skip : nat) (s : string) : list string :=
  match s with
  | EmptyString => [""]
  | String c r =>
      match skip with
      | S k => split_from sep k r
      | O =>
          if String.prefix sep s
          then "" :: split_from sep (Nat.pred (String.length sep)) r
          else match split_from sep O r with
               | t :: ts => String c t :: ts
               | [] => [String c ""]
               end
      end
  end.

Definition split (sep : string) (s : string) : list string :=
  split_from sep O s.

(** [xs.join(sep)]. *)
Fixpoint join (sep : string) (xs : list string) : string :=
  match xs with
  | [] => ""
  | [x] => x
  | x :: rest => x ++ sep ++ join sep rest
  end.

(** *** parseInt(s) with no radix argument *)

Definition digit_value (radix : Z) (c : ascii) : option Z :=
  if is_digit c then Some (code c - 48)
  else if (radix =? 16) && between 97 102 c then Some (code c - 87)
  else if (radix =? 16) && between 65 70 c then Some (code c - 55)
  else None.

(** Value of the longest prefix of radix-[radix] digits; [None] when that
    prefix is empty. *)
Fixpoint digits_prefix (radix : Z) (acc : option Z) (s : string) : option Z :=
  match s with
  | String c r =>
      match digit_value radix c with
      | Some d => digits_prefix radix (Some (radix * default 0 acc + d)) r
      | None => acc
      end
  | EmptyString => acc
  end.

(** An optional sign: the sign and what follows it. *)
Definition strip_sign (s : string) : Z * string :=
  match s with
  | String c r =>
      if (c =? "-")%char then (-1, r)
      else if (c =? "+")%char then (1, r)
      else (1, s)
  | EmptyString => (1, s)
  end.

(** An optional 0x or 0X: the radix and what follows the prefix. *)
Definition strip_hex_prefix (s : string) : Z * string :=
  match s with
  | String c (String k r) =>
      if (c =? "0")%char && ((k =? "x")%char || (k =? "X")%char)
      then (16, r)
      else (10, s)
  | _ => (10, s)
  end.

(** [parseInt(s)] without radix: white space, a sign and a 0x prefix are
    skipped, then the longest prefix of digits of the radix is taken;
    NaN if there is none.  The value is the exact value of the digits. *)
Definition parseInt (s : string) : number :=
  let '(sign, s1) := strip_sign (trimStart s) in
  let '(radix, s2) := strip_hex_prefix s1 in
  match digits_prefix radix None s2 with
  | Some m => Int (sign * m)
  | None => NaN
  end.

(** *** isNaN(s) on a string: is Number(s) NaN?

    Number(s) trims [s] and reads it with the StringNumericLiteral
    grammar; the empty string reads as 0. *)

(** Drops the longest prefix of characters satisfying [p] and tells
    whether it was non-empty. *)
Fixpoint skip_while (p : ascii -> bool) (seen : bool) (s : string) : bool * string :=
  match s with
  | String c r => if p c then skip_while p true r else (seen, s)
  | EmptyString => (seen, s)
  end.

Definition drop_sign (s : string) : string := (strip_sign s).2.

(** ExponentPart_opt up to the end of the string. *)
Definition exponent_opt (s : string) : bool :=
  match s with
  | EmptyString => true
  | String c r =>
      ((c =? "e")%char || (c =? "E")%char) &&
      (let '(some, rest) := skip_while is_digit false (drop_sign r) in
       some && bool_decide (rest = ""))
  end.

(** StrUnsignedDecimalLiteral. *)
Definition unsigned_decimal (s : string) : bool :=
  bool_decide (s = "Infinity") ||
  (let '(int_part, r1) := skip_while is_digit false s in
   match r1 with
   | String c r =>
       if (c =? ".")%char
       then let '(frac_part, r2) := skip_while is_digit false r in
            (int_part || frac_part) && exponent_opt r2
       else int_part && exponent_opt r1
   | EmptyString => int_part
   end).

Definition is_bin (c : ascii) : bool := between 48 49 c.
Definition is_oct (c : ascii) : bool := between 48 55 c.
Definition is_hex (c : ascii) : bool :=
  is_digit c || between 97 102 c || between 65 70 c.

Definition all_of (p : ascii -> bool) (s : string) : bool :=
  let '(some, rest) := skip_while p false s in some && bool_decide (rest = "").

(** NonDecimalIntegerLiteral: 0b, 0o and 0x forms, no sign. *)
Definition non_decimal (s : string) : bool :=
  match s with
  | String c (String k r) =>
      (c =? "0")%char &&
      (if (k =? "b")%char || (k =? "B")%char then all_of is_bin r
       else if (k =? "o")%char || (k =? "O")%char then all_of is_oct r
       else if (k =? "x")%char || (k =? "X")%char then all_of is_hex r
       else false)
  | _ => false
  end.

Definition isNaN (s : string) : bool :=
  let t := trim s in
  negb (bool_decide (t = "") || unsigned_decimal (drop_sign t) || non_decimal t).

End JS.


Import JS.

(** ** Data model *)

(** What a grid access can yield: the text of a cell, or [undefined] when
    the row exists but has no such column. *)
Inductive cell : Type :=
| Undefined
| Text (s : string).

#[global] Instance cell_eq_dec : EqDecision cell.
Proof. solve_decision. Defined.

Definition cell_to_option (c : cell) : option string :=
  match c with Undefined => None | Text s => Some s end.

Definition cell_of_option (o : option string) : cell :=
  match o with None => Undefined | Some s => Text s end.

#[global] Instance cell_countable : Countable cell.
Proof.
  apply (inj_countable' cell_to_option cell_of_option).
  intros []; reflexivity.
Defined.

(** The value [evaluateCell] returns: a number, or the string "#ERR". *)
Inductive result : Type :=
| Value (n : number)
| ERR.

(** What can be thrown: the engine's TypeError (property access on
    [undefined]) or [new Error(msg)]. *)
Inductive error : Type :=
| TypeError
| Error (msg : string).

(** Observable events, in program order.  [Invoke] and [Recurse] are
    ghost events: they mark the call of [evaluateCell] in [processCSV]
    and the recursive call inside [evaluateCell], with the cell text
    passed and the contents of the Visited Set at the moment of the
    call. *)
Inductive event : Type :=
| ConsoleError (msg : string)
| ConsoleLog (msg : string)
| Invoke (row col : nat) (c : cell) (visited : gset cell)
| Recurse (token : string) (c : cell) (visited : gset cell).

(** The mutable state an evaluation works on: the one [Set] object that
    [visitedCells] refers to, and the console. *)
Record state : Type := mkState {
  visitedCells : gset cell;
  trace : list event
}.

Inductive outcome (A : Type) : Type :=
| Done (a : A) (st : state)
| Thrown (e : error) (st : state)
| OutOfFuel.

Arguments Done {A} a st.
Arguments Thrown {A} e st.
Arguments OutOfFuel {A}.

Definition emit (e : event) (st : state) : state :=
  mkState (visitedCells st) (trace st ++ [e]).

Definition console_error (msg : string) (st : state) : state :=
  emit (ConsoleError msg) st.

Definition console_log (msg : string) (st : state) : state :=
  emit (ConsoleLog msg) st.

(** [visitedCells.add(c)] and [visitedCells.delete(c)]. *)
Definition visited_add (c : cell) (st : state) : state :=
  mkState ({[c]} ∪ visitedCells st) (trace st).

Definition visited_delete (c : cell) (st : state) : state :=
  mkState (visitedCells st ∖ {[c]}) (trace st).

(** ** getCellIndices *)

Definition getCellIndices (cellRef : string) : number * number :=
  let col := sub (charCodeAt0 cellRef) (Int 65) in
  let row := sub (parseInt (slice1 cellRef)) (Int 1) in
  (row, col).

(** ** The reference pattern

    [/^[A-Z]+\d{1,2}( [A-Z]+\d{1,2})*$/] as the automaton it denotes:
    after one or more capitals come one or two digits; then the input
    ends or a single space starts the next reference. *)
Inductive regex_state : Type :=
| AtStart
| InLetters
| OneDigit
| TwoDigits.

Definition regex_step (q : regex_state) (c : ascii) : option regex_state :=
  match q with
  | AtStart => if is_upper c then Some InLetters else None
  | InLetters =>
      if is_upper c then Some InLetters
      else if is_digit c then Some OneDigit else None
  | OneDigit =>
      if is_digit c then Some TwoDigits
      else if (c =? " ")%char then Some AtStart else None
  | TwoDigits => if (c =? " ")%char then Some AtStart else None
  end.

Definition regex_accepts (q : regex_state) : bool :=
  match q with
  | OneDigit | TwoDigits => true
  | AtStart | InLetters => false
  end.

Fixpoint regex_run (q : regex_state) (s : string) : bool :=
  match s with
  | EmptyString => regex_accepts q
  | String c r =>
      match regex_step q c with
      | Some q' => regex_run q' r
      | None => false
      end
  end.

Definition cellRefRegex_test (token : string) : bool := regex_run AtStart token.

(** ** evaluateCell *)

Definition msg_empty_cell : string :=
  "Empty cell value found. Defaulting to #ERR".

Definition msg_empty_token : string :=
  "Empty token found. Defaulting to #ERR".

Definition msg_circular (token : string) : string :=
  "Circular dependence detected in cell '" ++ token ++
  "'.Defaulting them to #ERR".

Definition msg_out_of_bounds (row col : number) : string :=
  "Cell references an out of bounds cell ->'" ++
  fromCharCode (add (Int 65) col) ++ toString (add row (Int 1)) ++
  "'.Defaulting cell value to #ERR".

Definition msg_invalid (token : string) : string :=
  "Invalid cell value format -> '" ++ token ++
  "'. Verify. Defaulting to #ERR.".

Section Evaluator.

Variable initialCells : list (list string).
Variables numRows numCols : Z.

(** [row >= 0 && row < numRows && col >= 0 && col < numCols]. *)
Definition in_bounds (row col : number) : bool :=
  geb row (Int 0) && ltb row (Int numRows) &&
  geb col (Int 0) && ltb col (Int numCols).

(** [initialCells[row][col]].  A missing row makes the second access a
    property read on [undefined], which throws ([None]); a missing
    column of an existing row reads as [undefined]. *)
Definition referenced (row col : number) : option cell :=
  match row with
  | Int r =>
      if r <? 0 then None
      else match initialCells !! Z.to_nat r with
           | None => None
           | Some cells =>
               Some (match col with
                     | Int c =>
                         if c <? 0 then Undefined
                         else cell_of_option (cells !! Z.to_nat c)
                     | NaN => Undefined
                     end)
           end
  | NaN => None
  end.

(** The [for (const token of tokens)] loop; [recur] is the recursive
    call of [evaluateCell] at line 85. *)
Fixpoint evalTokens (recur : cell -> state -> outcome result)
    (tokens : list string) (sum : number) (st : state) : outcome result :=
  match tokens with
  | [] => Done (Value sum) st
  | token :: rest =>
      if bool_decide (trim token = "")
      then Done ERR (console_error msg_empty_token st)
      else if cellRefRegex_test token then
        let '(row, col) := getCellIndices token in
        if in_bounds row col then
          match referenced row col with
          | None => Thrown TypeError st
          | Some referencedCell =>
              if bool_decide (referencedCell ∈ visitedCells st)
              then Done ERR (console_error (msg_circular token) st)
              else
                let st1 := visited_add referencedCell st in
                let st2 := emit (Recurse token referencedCell (visitedCells st1)) st1 in
                match recur referencedCell st2 with
                | Done (Value refValue) st3 =>
                    evalTokens recur rest (add sum refValue)
                      (visited_delete referencedCell st3)
                | Done ERR st3 => Done ERR st3
                | Thrown e st3 => Thrown e st3
                | OutOfFuel => OutOfFuel
                end
          end
        else Done ERR (console_error (msg_out_of_bounds row col) st)
      else if negb (isNaN token)
      then evalTokens recur rest (add sum (parseInt token)) st
      else Done ERR (console_error (msg_invalid token) st)
  end.

(** [evaluateCell(cell, initialCells, visitedCells, numRows, numCols)];
    [fuel] bounds the depth of the recursion. *)
Fixpoint evaluateCell (fuel : nat) (c : cell) (st : state) : outcome result :=
  match fuel with
  | O => OutOfFuel
  | S fuel' =>
      match c with
      | Undefined => Done ERR (console_error msg_empty_cell st)
      | Text s => evalTokens (evaluateCell fuel') (split " " s) (Int 0) st
      end
  end.

End Evaluator.

(** ** The grid builder and the driver *)

Definition CRLF : string := String "013" (String "010" "").
Definition LF : string := String "010" "".

(** [values[col].trim().replace(/\s+/g, ' ')]. *)
Definition normalize (v : string) : string := replace_spaces (trim v).

Definition msg_invalid_dimensions : string :=
  "Invalid number of rows or columns".

(** [initializeCells(numRows, numCols)] on integer arguments that are
    array lengths (below 2^32), as [processCSV] passes them. *)
Definition initializeCells (numRows numCols : Z) : error + list (list string) :=
  if (numRows <=? 0) || (numCols <=? 0)
  then inl (Error msg_invalid_dimensions)
  else inr (replicate (Z.to_nat numRows) (replicate (Z.to_nat numCols) "")).

(** [initialCells[row][col] = v].  [populateCells] only writes inside the
    rectangle that [initializeCells] made, where the list update and the
    array assignment agree. *)
Definition set_cell (row col : nat) (v : string)
    (cells : list (list string)) : list (list string) :=
  match cells !! row with
  | Some r => <[row := <[col := v]> r]> cells
  | None => cells
  end.

(** Inner loop of [populateCells]: [k] columns remain, starting at [col]. *)
Fixpoint populateCols (values : list string) (row : nat) (k col : nat)
    (cells : list (list string)) : list (list string) :=
  match k with
  | O => cells
  | S k' =>
      populateCols values row k' (S col)
        (match values !! col with
         | Some v => set_cell row col (normalize v) cells
         | None => cells
         end)
  end.

(** Outer loop of [populateCells]; [None] is the TypeError of
    [rows[row].split] on a missing row. *)
Fixpoint populateRows (rows : list string) (numCols : nat) (k row : nat)
    (cells : list (list string)) : option (list (list string)) :=
  match k with
  | O => Some cells
  | S k' =>
      match rows !! row with
      | None => None
      | Some r =>
          populateRows rows numCols k' (S row)
            (populateCols (split "," r) row numCols O cells)
      end
  end.

Definition populateCells (rows : list string) (numRows numCols : nat)
    (initialCells : list (list string)) : option (list (list string)) :=
  populateRows rows numCols numRows O initialCells.

Definition result_toString (r : result) : string :=
  match r with
  | Value n => toString n
  | ERR => "#ERR"
  end.

Definition msg_inconsistent_log (row : nat) : string :=
  "Fix the csv before proceeding.Inconsistent number of columns in row " ++
  toString (Int (Z.of_nat row + 1)) ++ " ".

Definition msg_inconsistent : string :=
  "Fix the csv before proceeding. Inconsistent number of columns".

Section Driver.

Variable fuel : nat.
Variable populatedCells : list (list string).
Variables numRows numCols : nat.

(** The loop over the columns of one row: [k] columns remain, starting
    at [col]. *)
Fixpoint colLoop (values : list string) (row : nat) (k col : nat)
    (evaluatedValues : list result) (st : state) : outcome (list result) :=
  match k with
  | O => Done evaluatedValues st
  | S k' =>
      match values !! col with
      | None => Thrown TypeError st
      | Some v =>
          let c := Text (normalize v) in
          let st1 := emit (Invoke row col c (visitedCells st)) st in
          match evaluateCell populatedCells (Z.of_nat numRows) (Z.of_nat numCols)
                  fuel c st1 with
          | Done evaluatedValue st2 =>
              colLoop values row k' (S col)
                (evaluatedValues ++ [evaluatedValue]) st2
          | Thrown e st2 => Thrown e st2
          | OutOfFuel => OutOfFuel
          end
      end
  end.

(** The loop over the rows: [k] rows remain, starting at [row]. *)
Fixpoint rowLoop (rows : list string) (k row : nat)
    (result : list string) (st : state) : outcome (list string) :=
  match k with
  | O => Done result st
  | S k' =>
      match rows !! row with
      | None => Thrown TypeError st
      | Some r =>
          let values := split "," r in
          if bool_decide (length values ≠ numCols)
          then Thrown (Error msg_inconsistent)
                 (console_error (msg_inconsistent_log row) st)
          else
            match colLoop values row numCols O [] st with
            | Done evaluatedValues st1 =>
                rowLoop rows k' (S row)
                  (result ++ [join "," (map result_toString evaluatedValues)]) st1
            | Thrown e st1 => Thrown e st1
            | OutOfFuel => OutOfFuel
            end
      end
  end.

End Driver.

(** The state at the start of a run: [new Set()] and a silent console. *)
Definition fresh : state := mkState ∅ [].

(** [processCSV(csvData)]. *)
Definition processCSV (fuel : nat) (csvData : string) : outcome unit :=
  let rows := split CRLF (trim csvData) in
  let numRows := length rows in
  match rows with
  | [] => Thrown TypeError fresh
  | row0 :: _ =>
      let numCols := length (split "," row0) in
      match initializeCells (Z.of_nat numRows) (Z.of_nat numCols) with
      | inl e => Thrown e fresh
      | inr initialCells =>
          match populateCells rows numRows numCols initialCells with
          | None => Thrown TypeError fresh
          | Some populatedCells =>
              match rowLoop fuel populatedCells numRows numCols rows numRows O [] fresh with
              | Done result st => Done tt (console_log (join LF result) st)
              | Thrown e st => Thrown e st
              | OutOfFuel => OutOfFuel
              end
          end
      end
  end.

(** ** Vocabulary of the statements *)

(** The state in which a run of an outcome ended, if it ended. *)
Definition final_state {A : Type} (o : outcome A) : option state :=
  match o with
  | Done _ st => Some st
  | Thrown _ st => Some st
  | OutOfFuel => None
  end.

(** The grid has a row for every row index the bounds check admits. *)
Definition has_rows (initialCells : list (list string)) (numRows : Z) : Prop :=
  numRows <= Z.of_nat (length initialCells).

(** Every value a grid access can yield: the texts in the grid, and
    [undefined]. *)
Definition grid_values (initialCells : list (list string)) : gset cell :=
  {[Undefined]} ∪ list_to_set (Text <$> concat initialCells).

(** The recursion depth that is always enough: one more than the number
    of grid values not yet in the Visited Set. *)
Definition depth_bound (initialCells : list (list string)) (st : state) : nat :=
  S (size (grid_values initialCells ∖ visitedCells st)).

(** The cells for which [processCSV] called the evaluator, in order. *)
Fixpoint invoked (t : list event) : list (nat * nat) :=
  match t with
  | [] => []
  | Invoke row col _ _ :: t' => (row, col) :: invoked t'
  | _ :: t' => invoked t'
  end.

(** *** The reference graph of a grid *)

(** Text of the cell at a (row, column) position. *)
Definition content (initialCells : list (list string)) (p : nat * nat) : option string :=
  initialCells !! p.1 ≫= λ cells, cells !! p.2.

(** The text [s] has a token that is a reference to position [q] inside
    the bounds. *)
Definition refers (numRows numCols : Z) (s : string) (q : nat * nat) : Prop :=
  ∃ token,
    token ∈ split " " s ∧
    cellRefRegex_test token = true ∧
    getCellIndices token = (Int (Z.of_nat q.1), Int (Z.of_nat q.2)) ∧
    Z.of_nat q.1 < numRows ∧ Z.of_nat q.2 < numCols.

(** Cell [p] references cell [q]. *)
Definition edge (initialCells : list (list string)) (numRows numCols : Z)
    (p q : nat * nat) : Prop :=
  ∃ s, content initialCells p = Some s ∧ refers numRows numCols s q.

(** A reference chain leads from the cell back to itself. *)
Definition on_cycle (initialCells : list (list string)) (numRows numCols : Z)
    (p : nat * nat) : Prop :=
  tc (edge initialCells numRows numCols) p p.

(** The reference chain of the cell returns to a cell it has passed: it
    leads to a cell that lies on a cycle (possibly the cell itself). *)
Definition leads_to_cycle (initialCells : list (list string)) (numRows numCols : Z)
    (p : nat * nat) : Prop :=
  ∃ q, rtc (edge initialCells numRows numCols) p q ∧
       on_cycle initialCells numRows numCols q.

Definition cycle_free (initialCells : list (list string)) (numRows numCols : Z) : Prop :=
  ∀ p, ¬ on_cycle initialCells numRows numCols p.

(** A chain of [n] references starts at [p]. *)
Fixpoint walk (initialCells : list (list string)) (numRows numCols : Z)
    (n : nat) (p : nat * nat) : Prop :=
  match n with
  | O => True
  | S n' =>
      ∃ q, edge initialCells numRows numCols p q ∧
           walk initialCells numRows numCols n' q
  end.

(** What a loop that returned a number has seen at the token: it is not
    blank, and it is either a reference inside the bounds whose recursive
    evaluation returned a number, or a numeric string. *)
Definition passed (initialCells : list (list string)) (numRows numCols : Z)
    (recur : cell → state → outcome result) (token : string) : Prop :=
  trim token ≠ "" ∧
  if cellRefRegex_test token
  then in_bounds numRows numCols (getCellIndices token).1 (getCellIndices token).2 = true ∧
       ∃ c st n st',
         referenced initialCells (getCellIndices token).1 (getCellIndices token).2 = Some c ∧
         recur c st = Done (Value n) st'
  else isNaN token = false.

(** *** Reference tokens *)

Fixpoint all_chars (p : ascii → bool) (s : string) : bool :=
  match s with
  | String c r => p c && all_chars p r
  | EmptyString => true
  end.

(** The number a string of decimal digits denotes, continuing from [acc]. *)
Fixpoint decimal_value (acc : Z) (digits : string) : Z :=
  match digits with
  | String d r => decimal_value (10 * acc + (code d - 48)) r
  | EmptyString => acc
  end.

(** The token without its leading capitals. *)
Fixpoint after_letters (token : string) : string :=
  match token with
  | String c r => if is_upper c then after_letters r else token
  | EmptyString => ""
  end.

(** The indices the specification prescribes for a reference token: the
    digits after the letters, as a number, minus one; and the offset of
    the first character from "A". *)
Definition prescribed_indices (token : string) : number * number :=
  (Int (decimal_value 0 (after_letters token) - 1),
   sub (charCodeAt0 token) (Int 65)).

(** *** Traces *)

Definition is_console_error (e : event) : bool :=
  match e with ConsoleError _ => true | _ => false end.

(** No [console.error] in a trace. *)
Definition silent (t : list event) : bool :=
  forallb (λ e, negb (is_console_error e)) t.

(** The events [evaluateCell] itself leaves in a trace. *)
Definition evaluator_event (e : event) : bool :=
  match e with
  | ConsoleError _ | Recurse _ _ _ => true
  | ConsoleLog _ | Invoke _ _ _ _ => false
  end.

(** [st'] continues the trace of [st] with events of the evaluator. *)
Definition grows (st st' : state) : Prop :=
  ∃ ext, trace st' = (trace st ++ ext)%list ∧ forallb evaluator_event ext = true.

(** An evaluation only extends the trace, and says so on the console when
    it returns the error marker. *)
Definition extends (st : state) (o : outcome result) : Prop :=
  match o with
  | Done r st' => grows st st' ∧ (r = ERR → silent (trace st') = false)
  | Thrown _ st' => grows st st'
  | OutOfFuel => True
  end.

(** Every call of the driver that no [console.error] precedes was handed
    an empty Visited Set; [quiet] tells that no [console.error] has been
    seen so far. *)
Fixpoint clean_from (quiet : bool) (t : list event) : Prop :=
  match t with
  | [] => True
  | Invoke _ _ _ V :: t' => (quiet = true → V = ∅) ∧ clean_from quiet t'
  | ConsoleError _ :: t' => clean_from false t'
  | _ :: t' => clean_from quiet t'
  end.

Definition driver_inv (st : state) : Prop :=
  clean_from true (trace st) ∧
  (silent (trace st) = true → visitedCells st = ∅).

Definition outcome_inv {A : Type} (o : outcome A) : Prop :=
  match o with
  | Done _ st => driver_inv st
  | Thrown _ st => clean_from true (trace st)
  | OutOfFuel => True
  end.

(** What [console.log] printed. *)
Fixpoint printed (t : list event) : list string :=
  match t with
  | [] => []
  | ConsoleLog msg :: t' => msg :: printed t'
  | _ :: t' => printed t'
  end.

(** *** Input of the driver *)

Definition rows_of (csvData : string) : list string :=
  split CRLF (trim csvData).

(** The field count of the first row. *)
Definition width (csvData : string) : nat :=
  length (split "," (hd "" (rows_of csvData))).

(** The cells of the rows [row], ..., [row + n - 1] of a grid [w] wide,
    row by row. *)
Definition cells_of_rows (row n w : nat) : list (nat * nat) :=
  flat_map (λ r, (λ c, (r, c)) <$> seq O w) (seq row n).

(** The recursion depth that is enough for every call of a run. *)
Definition driver_fuel (populatedCells : list (list string)) : nat :=
  S (size (grid_values populatedCells)).

(** *** Inputs used in the statements *)

(** A one-row grid without reference cycle: A1 refers to B1, D1 refers to
    C1, and the two distinct cells B1 and C1 hold the same text. *)
Definition twin_csv : string := "B1,x,x,C1".
Definition twin_grid : list (list string) := [["B1"; "x"; "x"; "C1"]].

(** The second row has two fields, the others three. *)
Definition ragged_csv : string := "1,2,3" ++ CRLF ++ "4,5" ++ CRLF ++ "7,8,9".

(** A1 and B1 refer to each other. *)
Definition loop_grid : list (list string) := [["B1"; "A1"]].

(** A1 refers to itself (the grid of the repository's test). *)
Definition self_grid : list (list string) := [["A1"]; []; []].


(** *** Vocabulary of the further properties *)

(** The cell (as a grid access yields it) evaluates to a number from some
    Visited Set within some recursion depth. *)
Definition evaluable (initialCells : list (list string)) (numRows numCols : Z)
    (c : cell) : Prop :=
  ∃ fuel st n st',
    evaluateCell initialCells numRows numCols fuel c st = Done (Value n) st'.

(** No entry of the set evaluates to a number. *)
Definition only_failing (initialCells : list (list string)) (numRows numCols : Z)
    (V : gset cell) : Prop :=
  ∀ c, c ∈ V → ¬ evaluable initialCells numRows numCols c.

(** The cell evaluates to a number from the empty set within depth [fuel]. *)
Definition value_within (initialCells : list (list string)) (numRows numCols : Z)
    (fuel : nat) (c : cell) : bool :=
  match evaluateCell initialCells numRows numCols fuel c fresh with
  | Done (Value _) _ => true
  | _ => false
  end.

(** [r] is the least depth within which the cell evaluates to a number. *)
Definition rank (initialCells : list (list string)) (numRows numCols : Z)
    (r : nat) (c : cell) : Prop :=
  value_within initialCells numRows numCols r c = true ∧
  ∀ k, (k < r)%nat → value_within initialCells numRows numCols k c = false.

(** What a cell text evaluates to from a fresh, empty Visited Set. *)
Definition evaluate_fresh (initialCells : list (list string)) (numRows numCols : Z)
    (text : string) : result :=
  match evaluateCell initialCells numRows numCols (driver_fuel initialCells)
          (Text text) fresh with
  | Done r _ => r
  | _ => ERR
  end.

(** The sum the loop forms of numeric tokens. *)
Definition sum_of (tokens : list string) : number :=
  foldl add (Int 0) (parseInt <$> tokens).

(** A token the loop takes as a number. *)
Definition numeric_token (token : string) : Prop :=
  trim token ≠ "" ∧ cellRefRegex_test token = false ∧ isNaN token = false.

(** The text [populateCells] stores for the cell at row [r] and column
    [c]: the normalized field, or the empty string of [initializeCells]
    when row [r] has no field [c]. *)
Definition stored_text (rows : list string) (r c : nat) : string :=
  match rows !! r with
  | Some line =>
      match split "," line !! c with
      | Some v => normalize v
      | None => ""
      end
  | None => ""
  end.

(** The grid [processCSV] builds from its input. *)
Definition grid_of (csvData : string) : list (list string) :=
  let rows := rows_of csvData in
  match initializeCells (Z.of_nat (length rows)) (Z.of_nat (width csvData)) with
  | inr initialCells =>
      default [] (populateCells rows (length rows) (width csvData) initialCells)
  | inl _ => []
  end.

(** The output line of an input line whose cells are all evaluated from
    a fresh, empty Visited Set. *)
Definition expected_line (populatedCells : list (list string)) (numRows numCols : nat)
    (line : string) : string :=
  join ","
    (map result_toString
       (map (λ v, evaluate_fresh populatedCells (Z.of_nat numRows)
                    (Z.of_nat numCols) (normalize v))
          (split "," line))).

(** What [processCSV] prints if every cell is evaluated from a fresh,
    empty Visited Set. *)
Definition expected_output (csvData : string) : string :=
  join LF
    (map (expected_line (grid_of csvData) (length (rows_of csvData))
            (width csvData))
       (rows_of csvData)).

(** Closes the side conditions of a case distinction on positions. *)
Ltac side :=
  repeat split; first [lia | done | by eexists | eauto].

(** Refutes a case by the condition it denies. *)
Ltac contradict_decide :=
  exfalso;
  match goal with H : ¬ _ |- _ => apply H; solve [side] end.


(** The string is made of words separated by single spaces: it has no
    white space but the space, no two spaces in a row, none at its end,
    and none at its start if [after_space] is set.  With [after_space]
    set the string is not empty. *)
Fixpoint normalized_from (after_space : bool) (s : string) : bool :=
  match s with
  | String c r =>
      if is_space c
      then (c =? " ")%char && negb after_space && normalized_from true r
      else normalized_from false r
  | EmptyString => negb after_space
  end.

(** A word: not empty, and free of white space. *)
Definition word (token : string) : Prop :=
  token ≠ "" ∧ all_chars (λ c, negb (is_space c)) token = true.


(** The console messages of a trace. *)
Fixpoint errors (t : list event) : list string :=
  match t with
  | [] => []
  | ConsoleError msg :: t' => msg :: errors t'
  | _ :: t' => errors t'
  end.

(** The two channels of an evaluation agree: a returned number comes with
    no [console.error], the error marker with exactly one. *)
Definition reported (st : state) (o : outcome result) : Prop :=
  match o with
  | Done (Value _) st' => errors (trace st') = errors (trace st)
  | Done ERR st' => ∃ msg, errors (trace st') = (errors (trace st) ++ [msg])%list
  | Thrown _ st' => errors (trace st') = errors (trace st)
  | OutOfFuel => True
  end.


(** Two outcomes of the same kind that leave the same Visited Set: the
    numbers returned and the consoles may differ. *)
Definition alike (o o' : outcome result) : Prop :=
  match o, o' with
  | Done (Value _) st, Done (Value _) st' => visitedCells st = visitedCells st'
  | Done ERR st, Done ERR st' => visitedCells st = visitedCells st'
  | Thrown e st, Thrown e' st' => e = e' ∧ visitedCells st = visitedCells st'
  | OutOfFuel, OutOfFuel => True
  | _, _ => False
  end.

(** A cell value in which the loop finds no blank token. *)
Definition no_blank_token (c : cell) : Prop :=
  match c with
  | Undefined => False
  | Text s => Forall (λ token, trim token ≠ "") (split " " s)
  end.

(** Every cell that a reference inside the bounds reads is a text
    without blank token. *)
Definition blank_free (initialCells : list (list string)) (numRows numCols : Z) :
    Prop :=
  ∀ row col c,
    in_bounds numRows numCols row col = true →
    referenced initialCells row col = Some c →
    no_blank_token c.

(** The console holds neither the empty-token message nor the
    empty-cell message. *)
Definition no_empty_report (t : list event) : Prop :=
  (msg_empty_token ∉ errors t) ∧ (msg_empty_cell ∉ errors t).

(** Takes the loop body apart along the branches of the source. *)
Ltac branch_on t :=
  lazymatch t with
  | context [bool_decide (trim ?tok = "")] =>
      let H := fresh "Hblank" in
      destruct (bool_decide_reflect (trim tok = "")) as [H|H]
  | context [if cellRefRegex_test ?tok then _ else _] =>
      let H := fresh "Hregex" in destruct (cellRefRegex_test tok) eqn:H
  | context [let '(_, _) := getCellIndices ?tok in _] =>
      let H := fresh "Hindices" in
      let row := fresh "row" in
      let col := fresh "col" in
      destruct (getCellIndices tok) as [row col] eqn:H
  | context [if in_bounds ?a ?b ?r ?c then _ else _] =>
      let H := fresh "Hbounds" in destruct (in_bounds a b r c) eqn:H
  | context [match referenced ?g ?r ?c with _ => _ end] =>
      let H := fresh "Href" in
      let rc := fresh "referencedCell" in
      destruct (referenced g r c) as [rc|] eqn:H
  | context [bool_decide (?c ∈ visitedCells ?st)] =>
      let H := fresh "Hvisited" in
      destruct (bool_decide_reflect (c ∈ visitedCells st)) as [H|H]
  | context [if negb (isNaN ?tok) then _ else _] =>
      let H := fresh "Hnan" in
      destruct (isNaN tok) eqn:H; cbn [negb] in *
  end.

Ltac branches H :=
  repeat (let T := type of H in branch_on T).

Ltac goal_branches :=
  repeat match goal with |- ?G => branch_on G end.

(** ** Properties of the evaluator *)

Lemma add_delete_fresh (c : cell) (V : gset cell) :
  c ∉ V → ({[c]} ∪ V) ∖ {[c]} = V.
Proof.
  intros Hc. apply set_eq. intros x.
  rewrite elem_of_difference, elem_of_union, elem_of_singleton.
  split; [tauto|]. intros Hx. split; [tauto|]. by intros ->.
Qed.

Lemma add_fresh_smaller (c : cell) (U V : gset cell) :
  c ∈ U → c ∉ V → (size (U ∖ ({[c]} ∪ V)) < size (U ∖ V))%nat.
Proof.
  intros HU HV. apply subset_size. split.
  - intros x. rewrite !elem_of_difference, elem_of_union. tauto.
  - intros Hsub. specialize (Hsub c).
    rewrite !elem_of_difference, elem_of_union, elem_of_singleton in Hsub.
    tauto.
Qed.

Section EvaluatorFacts.

Variable initialCells : list (list string).
Variables numRows numCols : Z.

Local Abbreviation loop := (evalTokens initialCells numRows numCols).
Local Abbreviation eval := (evaluateCell initialCells numRows numCols).
Local Abbreviation values := (grid_values initialCells).

Lemma evalTokens_frame recur :
  (∀ c st n st', recur c st = Done (Value n) st' →
                 visitedCells st' = visitedCells st) →
  ∀ tokens sum st n st',
    loop recur tokens sum st = Done (Value n) st' →
    visitedCells st' = visitedCells st.
Proof.
  intros Hrec tokens.
  induction tokens as [|token rest IH]; intros sum st n st' H; cbn in H.
  - by inversion H.
  - branches H; try discriminate; eauto.
    destruct (recur _ _) as [[v|] st3|e st3|] eqn:Hcall; try discriminate.
    apply IH in H. apply Hrec in Hcall. cbn in *.
    rewrite H, Hcall. by apply add_delete_fresh.
Qed.

Lemma evaluateCell_frame fuel c st n st' :
  eval fuel c st = Done (Value n) st' →
  visitedCells st' = visitedCells st.
Proof.
  revert c st n st'.
  induction fuel as [|fuel IH]; intros c st n st' H; cbn in H; [done|].
  destruct c as [|s]; [done|].
  eapply evalTokens_frame; eauto.
Qed.

(** More fuel never changes a result. *)
Lemma evalTokens_mono recur1 recur2 :
  (∀ c st, recur1 c st ≠ OutOfFuel → recur2 c st = recur1 c st) →
  ∀ tokens sum st,
    loop recur1 tokens sum st ≠ OutOfFuel →
    loop recur2 tokens sum st = loop recur1 tokens sum st.
Proof.
  intros Hrec tokens.
  induction tokens as [|token rest IH]; intros sum st H; cbn [evalTokens] in *;
    [done|].
  branches H; try done; eauto.
  destruct (recur1 _ _) as [[v|] st3|e st3|] eqn:Hcall; try done;
    rewrite Hrec, Hcall by (by rewrite Hcall); eauto.
Qed.

Lemma evaluateCell_S fuel c st :
  eval fuel c st ≠ OutOfFuel →
  eval (S fuel) c st = eval fuel c st.
Proof.
  revert c st.
  induction fuel as [|fuel IH]; intros c st H; [done|].
  destruct c as [|s]; [done|].
  cbn [evaluateCell] in *. by apply evalTokens_mono.
Qed.

Lemma evaluateCell_mono fuel fuel' c st :
  (fuel ≤ fuel')%nat →
  eval fuel c st ≠ OutOfFuel →
  eval fuel' c st = eval fuel c st.
Proof.
  induction 1 as [|fuel' _ IH]; intros H; [done|].
  rewrite evaluateCell_S; rewrite IH; done.
Qed.

(** What a grid access yields is one of the grid's values. *)
Lemma referenced_in_values row col c :
  referenced initialCells row col = Some c → c ∈ values.
Proof.
  unfold referenced, grid_values. intros H.
  destruct row as [r|]; [|done].
  destruct (r <? 0); [done|].
  destruct (initialCells !! Z.to_nat r) as [cells|] eqn:Hrow; [|done].
  injection H as <-.
  assert (∀ o, (∀ s, o = Some s → s ∈ cells) →
    cell_of_option o ∈ ({[Undefined]} ∪ list_to_set (Text <$> concat initialCells) : gset cell))
    as Hopt.
  { intros [s|] Hs; cbn.
    - apply elem_of_union_r, elem_of_list_to_set, list_elem_of_fmap_2.
      apply list_elem_of_In, in_concat. exists cells.
      split; apply list_elem_of_In; eauto using list_elem_of_lookup_2.
    - by apply elem_of_union_l, elem_of_singleton. }
  destruct col as [c|]; [destruct (c <? 0)|];
    try (by apply elem_of_union_l, elem_of_singleton).
  apply Hopt. intros s Hs. eauto using list_elem_of_lookup_2.
Qed.

(** The loop finishes when every recursive call it makes does. *)
Lemma evalTokens_enough recur (k : nat) :
  (∀ c st n st', recur c st = Done (Value n) st' →
                 visitedCells st' = visitedCells st) →
  (∀ c st, (size (values ∖ visitedCells st) < k)%nat →
           recur c st ≠ OutOfFuel) →
  ∀ tokens sum st,
    (size (values ∖ visitedCells st) ≤ k)%nat →
    loop recur tokens sum st ≠ OutOfFuel.
Proof.
  intros Hframe Hrec tokens.
  induction tokens as [|token rest IH]; intros sum st Hk; cbn [evalTokens];
    [done|].
  goal_branches; try done; eauto.
  destruct (recur _ _) as [[v|] st3|e st3|] eqn:Hcall; try done.
  - apply IH. apply Hframe in Hcall. cbn in *.
    by rewrite Hcall, add_delete_fresh.
  - intros _. revert Hcall. apply Hrec. cbn.
    eapply Nat.lt_le_trans; [apply add_fresh_smaller|exact Hk];
      eauto using referenced_in_values.
Qed.

Lemma evaluateCell_enough fuel c st :
  (size (values ∖ visitedCells st) < fuel)%nat →
  eval fuel c st ≠ OutOfFuel.
Proof.
  revert c st.
  induction fuel as [|fuel IH]; intros c st Hk; [lia|].
  destruct c as [|s]; [done|].
  cbn [evaluateCell].
  apply (evalTokens_enough _ fuel); [apply evaluateCell_frame|apply IH|lia].
Qed.

(** With a row for every admitted row index, no grid access throws. *)
Lemma referenced_has_rows row col :
  has_rows initialCells numRows →
  in_bounds numRows numCols row col = true →
  is_Some (referenced initialCells row col).
Proof.
  unfold has_rows, in_bounds, referenced. intros Hrows Hb.
  destruct row as [r|]; [|done]. cbn in Hb.
  destruct (r <? 0) eqn:Hr; [lia|].
  destruct (initialCells !! Z.to_nat r) eqn:Hrow; [by eexists|].
  apply lookup_ge_None in Hrow. lia.
Qed.

Lemma evalTokens_no_throw recur :
  has_rows initialCells numRows →
  (∀ c st e st', recur c st ≠ Thrown e st') →
  ∀ tokens sum st e st', loop recur tokens sum st ≠ Thrown e st'.
Proof.
  intros Hrows Hrec tokens.
  induction tokens as [|token rest IH]; intros sum st e st';
    cbn [evalTokens]; [done|].
  goal_branches; try done; eauto.
  - destruct (recur _ _) as [[v|] st3|e3 st3|] eqn:Hcall; try done; eauto.
    intros [= -> ->]. by eapply Hrec.
  - edestruct referenced_has_rows as [? ?]; [done..|congruence].
Qed.

Lemma evaluateCell_no_throw fuel c st e st' :
  has_rows initialCells numRows →
  eval fuel c st ≠ Thrown e st'.
Proof.
  intros Hrows. revert c st e st'.
  induction fuel as [|fuel IH]; intros c st e st'; [done|].
  destruct c as [|s]; [done|].
  cbn [evaluateCell]. by apply evalTokens_no_throw.
Qed.

(** The loop over a concatenation runs the first part, then the second. *)
Lemma evalTokens_app recur pre rest sum st :
  loop recur (pre ++ rest) sum st =
  match loop recur pre sum st with
  | Done (Value sum1) st1 => loop recur rest sum1 st1
  | o => o
  end.
Proof.
  revert sum st.
  induction pre as [|token pre IH]; intros sum st; cbn [evalTokens app];
    [done|].
  goal_branches; try done.
  destruct (recur _ _) as [[v|] st3|e st3|]; done.
Qed.

Lemma evalTokens_Value recur tokens sum st v st' :
  loop recur tokens sum st = Done (Value v) st' →
  Forall (passed initialCells numRows numCols recur) tokens.
Proof.
  revert sum st.
  induction tokens as [|token rest IH]; intros sum st H; cbn [evalTokens] in H;
    [constructor|].
  unfold passed.
  branches H; try done.
  - destruct (recur _ _) as [[n|] st3|e st3|] eqn:Hcall; try done.
    constructor; [|eauto].
    rewrite Hregex, Hindices. cbn. eauto 10.
  - constructor; [|eauto]. by rewrite Hregex.
Qed.

(** *** References along a chain *)

Lemma referenced_content (q : nat * nat) c :
  referenced initialCells (Int (Z.of_nat q.1)) (Int (Z.of_nat q.2)) = Some c →
  c = cell_of_option (content initialCells q).
Proof.
  unfold referenced, content.
  destruct (Z.ltb_spec (Z.of_nat q.1) 0); [lia|].
  destruct (Z.ltb_spec (Z.of_nat q.2) 0); [lia|].
  rewrite !Nat2Z.id.
  destruct (initialCells !! q.1) as [cells|]; [|done].
  by intros [= <-].
Qed.

(** A cell whose evaluation returns a number within [fuel] nested calls
    starts no chain of [fuel] references. *)
Lemma no_value_on_walk fuel p s st v st' :
  content initialCells p = Some s →
  walk initialCells numRows numCols fuel p →
  eval fuel (Text s) st ≠ Done (Value v) st'.
Proof.
  revert p s st v st'.
  induction fuel as [|fuel IH]; intros p s st v st' Hp Hwalk; [done|].
  destruct Hwalk as (q & (s0 & Hp0 & token & Hin & Hregex & Hindices & Hr & Hc) & Hwalk).
  assert (s0 = s) as -> by congruence.
  cbn [evaluateCell]. intros Hval.
  apply evalTokens_Value in Hval.
  rewrite Forall_forall in Hval. apply Hval in Hin as [_ Hpass].
  rewrite Hregex, Hindices in Hpass. cbn in Hpass.
  destruct Hpass as (_ & c & stA & n & stB & Href & Hcall).
  apply referenced_content in Href.
  destruct (content initialCells q) as [sq|] eqn:Hq; subst c; cbn in Hcall.
  - by eapply IH in Hcall.
  - by destruct fuel.
Qed.

Lemma on_cycle_walk p n :
  on_cycle initialCells numRows numCols p →
  walk initialCells numRows numCols n p.
Proof.
  intros Hcycle.
  enough (∀ x, tc (edge initialCells numRows numCols) x p →
               walk initialCells numRows numCols n x) by eauto.
  induction n as [|n IH]; intros x Hx; [done|].
  destruct Hx as [x y Hxy|x y z Hxy Hyz]; cbn; eauto.
Qed.

Lemma leads_to_cycle_walk p n :
  leads_to_cycle initialCells numRows numCols p →
  walk initialCells numRows numCols n p.
Proof.
  intros (q & Hpath & Hcycle). revert n.
  induction Hpath as [q|p y q Hedge _ IH]; intros n.
  - by apply on_cycle_walk.
  - destruct n as [|n]; [done|]. exists y. eauto.
Qed.

(** The evaluation that is bound to finish: fuel [depth_bound] gives a
    result, and all larger fuels give the same. *)
Lemma evaluateCell_total c st :
  eval (depth_bound initialCells st) c st ≠ OutOfFuel ∧
  ∀ fuel, (depth_bound initialCells st ≤ fuel)%nat →
          eval fuel c st = eval (depth_bound initialCells st) c st.
Proof.
  assert (eval (depth_bound initialCells st) c st ≠ OutOfFuel) as H.
  { apply evaluateCell_enough. unfold depth_bound. lia. }
  split; [done|]. intros fuel Hfuel. by apply evaluateCell_mono.
Qed.

(** An evaluation that cannot return a number returns the error marker. *)
Lemma evaluateCell_ERR c st :
  has_rows initialCells numRows →
  (∀ fuel v st', eval fuel c st ≠ Done (Value v) st') →
  ∃ st', ∀ fuel, (depth_bound initialCells st ≤ fuel)%nat →
                 eval fuel c st = Done ERR st'.
Proof.
  intros Hrows Hno.
  destruct (evaluateCell_total c st) as [Hfin Hmono].
  destruct (eval (depth_bound initialCells st) c st) as [[v|] st'|e st'|] eqn:Hrun.
  - by apply Hno in Hrun.
  - exists st'. intros fuel Hfuel. by rewrite Hmono.
  - by apply evaluateCell_no_throw in Hrun.
  - done.
Qed.

End EvaluatorFacts.

(** ** Reference tokens *)

Lemma is_digit_not c k :
  is_digit c = true → is_digit k = false → (c =? k)%char = false.
Proof.
  intros Hc Hk. destruct (Ascii.eqb_spec c k); [congruence|done].
Qed.

Lemma is_digit_not_space c : is_digit c = true → is_space c = false.
Proof. unfold is_digit, is_space, between. lia. Qed.

Lemma is_digit_not_upper c : is_digit c = true → is_upper c = false.
Proof. unfold is_digit, is_upper, between. lia. Qed.

Lemma digit_value_10 c : is_digit c = true → digit_value 10 c = Some (code c - 48).
Proof. unfold digit_value. by intros ->. Qed.

Lemma digits_prefix_decimal digits acc :
  all_chars is_digit digits = true →
  digits_prefix 10 (Some acc) digits = Some (decimal_value acc digits).
Proof.
  revert acc.
  induction digits as [|d r IH]; intros acc H; cbn in *; [done|].
  apply andb_prop in H as [Hd Hr].
  rewrite digit_value_10 by done. cbn. by apply IH.
Qed.

Lemma parseInt_digits digits :
  all_chars is_digit digits = true → digits ≠ "" →
  parseInt digits = Int (decimal_value 0 digits).
Proof.
  intros H Hne. destruct digits as [|d r]; [done|]. clear Hne.
  cbn in H. apply andb_prop in H as [Hd Hr].
  unfold parseInt. cbn [trimStart].
  rewrite is_digit_not_space by done. unfold strip_sign.
  rewrite !(is_digit_not d) by done.
  assert (strip_hex_prefix (String d r) = (10, String d r)) as ->.
  { destruct r as [|k r]; [done|]. cbn in Hr.
    apply andb_prop in Hr as [Hk _]. unfold strip_hex_prefix.
    rewrite !(is_digit_not k) by done. by rewrite andb_false_r. }
  cbn [digits_prefix]. rewrite digit_value_10 by done. cbn [default].
  rewrite digits_prefix_decimal by done.
  cbn [decimal_value]. f_equal. lia.
Qed.

Lemma single_letter_reference letter digits :
  is_upper letter = true →
  all_chars is_digit digits = true →
  (1 ≤ String.length digits ≤ 2)%nat →
  cellRefRegex_test (String letter digits) = true ∧
  getCellIndices (String letter digits) =
    (Int (decimal_value 0 digits - 1), Int (code letter - 65)).
Proof.
  intros Hl Hd Hlen. split.
  - unfold cellRefRegex_test. cbn [regex_run regex_step]. rewrite Hl.
    destruct digits as [|d1 [|d2 [|d3 r]]]; cbn in Hlen; try lia;
      cbn in Hd; repeat (apply andb_prop in Hd as [? Hd]);
      repeat (cbn [regex_run regex_step regex_accepts];
              rewrite ?is_digit_not_upper by done;
              match goal with H : is_digit _ = true |- _ => rewrite H; clear H end);
      done.
  - unfold getCellIndices. cbn [charCodeAt0 slice1].
    rewrite parseInt_digits; [done..|].
    destruct digits; cbn in Hlen; [lia|done].
Qed.


(** ** Traces of the evaluator *)

Lemma silent_app t1 t2 : silent (t1 ++ t2)%list = silent t1 && silent t2.
Proof. apply forallb_app. Qed.

Lemma grows_refl st : grows st st.
Proof. exists []. by rewrite app_nil_r. Qed.

Lemma grows_trans st1 st2 st3 : grows st1 st2 → grows st2 st3 → grows st1 st3.
Proof.
  intros (e1 & H1 & F1) (e2 & H2 & F2). exists (e1 ++ e2)%list.
  rewrite H2, H1, app_assoc, forallb_app, F1, F2. done.
Qed.

Lemma grows_emit e st : evaluator_event e = true → grows st (emit e st).
Proof. intros He. exists [e]. cbn. by rewrite He. Qed.

Lemma grows_visited st V : grows st (mkState V (trace st)).
Proof. exists []. by rewrite app_nil_r. Qed.

Lemma console_error_noisy msg st : silent (trace (console_error msg st)) = false.
Proof. cbn. rewrite silent_app. cbn. apply andb_false_r. Qed.

Section EvaluatorTrace.

Variable initialCells : list (list string).
Variables numRows numCols : Z.

Local Abbreviation loop := (evalTokens initialCells numRows numCols).
Local Abbreviation eval := (evaluateCell initialCells numRows numCols).

Lemma evalTokens_extends recur :
  (∀ c st, extends st (recur c st)) →
  ∀ tokens sum st, extends st (loop recur tokens sum st).
Proof.
  intros Hrec tokens.
  induction tokens as [|token rest IH]; intros sum st; cbn [evalTokens].
  { split; [apply grows_refl|done]. }
  goal_branches;
    try (split; [by apply grows_emit|intros _; apply console_error_noisy]).
  - specialize (Hrec referencedCell
      (emit (Recurse token referencedCell (visitedCells (visited_add referencedCell st)))
            (visited_add referencedCell st))).
    assert (grows st
      (emit (Recurse token referencedCell (visitedCells (visited_add referencedCell st)))
            (visited_add referencedCell st))) as Hstart.
    { exists [Recurse token referencedCell
                (visitedCells (visited_add referencedCell st))]. done. }
    destruct (recur _ _) as [[v|] st3|e st3|]; cbn in Hrec; [| | |done].
    + destruct Hrec as [Hg _].
      specialize (IH (add sum v) (visited_delete referencedCell st3)).
      assert (grows st (visited_delete referencedCell st3)) as Hmid.
      { eapply grows_trans; [exact Hstart|].
        eapply grows_trans; [exact Hg|apply grows_visited]. }
      destruct (loop recur rest _ _) as [r st4|e st4|]; cbn in *; [| |done].
      * destruct IH as [Hg4 Herr]. split; [|done]. by eapply grows_trans.
      * by eapply grows_trans.
    + destruct Hrec as [Hg Herr]. split; [|done]. by eapply grows_trans.
    + by eapply grows_trans.
  - apply grows_refl.
  - apply IH.
Qed.

Lemma evaluateCell_extends fuel c st : extends st (eval fuel c st).
Proof.
  revert c st.
  induction fuel as [|fuel IH]; intros c st; [done|].
  destruct c as [|s]; cbn [evaluateCell].
  - split; [by apply grows_emit|intros _; apply console_error_noisy].
  - by apply evalTokens_extends.
Qed.

End EvaluatorTrace.


(** ** The Visited Set across the calls of the driver *)

Lemma clean_from_app quiet t ext :
  clean_from quiet t →
  clean_from (quiet && silent t) ext →
  clean_from quiet (t ++ ext).
Proof.
  revert quiet.
  induction t as [|e t IH]; intros quiet Ht Hext; cbn [app].
  - by rewrite andb_true_r in Hext.
  - destruct e; cbn in *; try (by apply IH).
    + apply IH; [done|]. by rewrite andb_false_r in Hext.
    + destruct Ht as [HV Ht]. split; [done|]. by apply IH.
Qed.

Lemma clean_from_evaluator quiet ext :
  forallb evaluator_event ext = true → clean_from quiet ext.
Proof.
  revert quiet.
  induction ext as [|e ext IH]; intros quiet H; [done|].
  cbn in H. apply andb_prop in H as [He Hext].
  destruct e; cbn in *; try done; by apply IH.
Qed.

Lemma clean_from_split quiet t1 row col c V t2 :
  clean_from quiet (t1 ++ Invoke row col c V :: t2) →
  quiet && silent t1 = true → V = ∅.
Proof.
  revert quiet.
  induction t1 as [|e t1 IH]; intros quiet Hclean Hq; cbn [app] in Hclean.
  - destruct Hclean as [HV _]. apply HV. by rewrite andb_true_r in Hq.
  - cbn in Hq. destruct e; cbn in *; try (by eapply IH).
    + by rewrite andb_false_r in Hq.
    + destruct Hclean as [_ Hclean]. by eapply IH.
Qed.

Lemma grows_clean st st' :
  grows st st' → clean_from true (trace st) → clean_from true (trace st').
Proof.
  intros (ext & -> & Hext) Hclean.
  apply clean_from_app; [done|]. by apply clean_from_evaluator.
Qed.

Lemma grows_silent st st' :
  grows st st' → silent (trace st') = true → silent (trace st) = true.
Proof.
  intros (ext & -> & _). rewrite silent_app. by intros [? _]%andb_prop.
Qed.

Lemma driver_inv_fresh : driver_inv fresh.
Proof. by split. Qed.

Section DriverFacts.

Variable fuel : nat.
Variable populatedCells : list (list string).
Variables numRows numCols : nat.

Local Abbreviation cols := (colLoop fuel populatedCells numRows numCols).
Local Abbreviation rows_loop := (rowLoop fuel populatedCells numRows numCols).
Local Abbreviation eval :=
  (evaluateCell populatedCells (Z.of_nat numRows) (Z.of_nat numCols)).

Lemma driver_inv_invoke row col c st :
  driver_inv st → driver_inv (emit (Invoke row col c (visitedCells st)) st).
Proof.
  intros [Hclean Hempty]. split; cbn.
  - apply clean_from_app; [done|]. by cbn.
  - rewrite silent_app. intros [? _]%andb_prop. eauto.
Qed.

Lemma driver_inv_eval c st r st' :
  driver_inv st → eval fuel c st = Done r st' → driver_inv st'.
Proof.
  intros [Hclean Hempty] Hrun.
  pose proof (evaluateCell_extends populatedCells (Z.of_nat numRows)
                (Z.of_nat numCols) fuel c st) as Hext.
  rewrite Hrun in Hext. destruct Hext as [Hg Herr].
  split; [by eapply grows_clean|].
  intros Hsilent. destruct r as [n|]; [|rewrite Herr in Hsilent; done].
  apply evaluateCell_frame in Hrun. rewrite Hrun.
  eauto using grows_silent.
Qed.

Lemma colLoop_inv values row k col evaluatedValues st :
  driver_inv st →
  outcome_inv (cols values row k col evaluatedValues st).
Proof.
  revert col evaluatedValues st.
  induction k as [|k IH]; intros col evaluatedValues st Hinv; cbn [colLoop];
    [done|].
  destruct (values !! col) as [v|]; [|apply Hinv].
  pose proof (driver_inv_invoke row col (Text (normalize v)) st Hinv) as Hinv1.
  destruct (eval _ _ _) as [r st2|e st2|] eqn:Hrun; [| |done].
  - apply IH. by eapply driver_inv_eval.
  - pose proof (evaluateCell_extends populatedCells (Z.of_nat numRows)
                  (Z.of_nat numCols) fuel (Text (normalize v))
                  (emit (Invoke row col (Text (normalize v)) (visitedCells st)) st))
      as Hext.
    rewrite Hrun in Hext. cbn in Hext.
    eapply grows_clean; [exact Hext|apply Hinv1].
Qed.

Lemma rowLoop_inv rows k row result st :
  driver_inv st →
  outcome_inv (rows_loop rows k row result st).
Proof.
  revert row result st.
  induction k as [|k IH]; intros row result st Hinv; cbn [rowLoop]; [done|].
  destruct (rows !! row) as [r|]; [|apply Hinv].
  case_bool_decide.
  - cbn. apply clean_from_app; [apply Hinv|done].
  - pose proof (colLoop_inv (split "," r) row numCols O [] st Hinv) as Hcols.
    destruct (cols _ _ _ _ _ _) as [evaluatedValues st1|e st1|]; [| |done].
    + by apply IH.
    + done.
Qed.

End DriverFacts.

Lemma processCSV_clean fuel csvData st :
  final_state (processCSV fuel csvData) = Some st →
  clean_from true (trace st).
Proof.
  unfold processCSV.
  destruct (split CRLF (trim csvData)) as [|row0 rows] eqn:Hrows;
    [by intros [= <-]|].
  destruct (initializeCells _ _) as [e|initialCells]; [by intros [= <-]|].
  destruct (populateCells _ _ _ _) as [populatedCells|]; [|by intros [= <-]].
  match goal with |- context [rowLoop ?f ?g ?nr ?nc ?rs ?k ?r ?res ?s] =>
    pose proof (rowLoop_inv f g nr nc rs k r res s driver_inv_fresh) as Hinv;
    destruct (rowLoop f g nr nc rs k r res s) as [result st1|e st1|]
  end; cbn; [| |done].
  - intros [= <-]. cbn. apply clean_from_app; [apply Hinv|done].
  - by intros [= <-].
Qed.


(** ** Runs of the driver *)

Lemma invoked_app t1 t2 : invoked (t1 ++ t2) = (invoked t1 ++ invoked t2)%list.
Proof.
  induction t1 as [|e t1 IH]; [done|].
  destruct e; cbn; by rewrite ?IH.
Qed.

Lemma printed_app t1 t2 : printed (t1 ++ t2) = (printed t1 ++ printed t2)%list.
Proof.
  induction t1 as [|e t1 IH]; [done|].
  destruct e; cbn; by rewrite ?IH.
Qed.

Lemma grows_invoked st st' :
  grows st st' →
  invoked (trace st') = invoked (trace st) ∧
  printed (trace st') = printed (trace st).
Proof.
  intros (ext & -> & Hext). rewrite invoked_app, printed_app.
  enough (invoked ext = [] ∧ printed ext = []) as [-> ->]
    by by rewrite !app_nil_r.
  induction ext as [|e ext IH]; [done|].
  cbn in Hext. apply andb_prop in Hext as [He Hext].
  destruct e; cbn in *; try done; by apply IH.
Qed.

Lemma split_from_nonempty sep skip s : (1 ≤ length (split_from sep skip s))%nat.
Proof.
  revert skip.
  induction s as [|c r IH]; intros skip; cbn [split_from]; [cbn; lia|].
  destruct skip as [|k]; [|apply IH].
  destruct (String.prefix sep (String c r)); [cbn; lia|].
  destruct (split_from sep O r); cbn; lia.
Qed.

Lemma length_set_cell row col v (cells : list (list string)) :
  length (set_cell row col v cells) = length cells.
Proof.
  unfold set_cell. destruct (cells !! row); [|done]. apply length_insert.
Qed.

Lemma length_populateCols values row k col (cells : list (list string)) :
  length (populateCols values row k col cells) = length cells.
Proof.
  revert col cells.
  induction k as [|k IH]; intros col cells; cbn; [done|].
  rewrite IH. destruct (values !! col); [apply length_set_cell|done].
Qed.

Lemma populateRows_Some (rows : list string) numCols k row
    (cells : list (list string)) :
  (row + k ≤ length rows)%nat →
  ∃ populatedCells,
    populateRows rows numCols k row cells = Some populatedCells ∧
    length populatedCells = length cells.
Proof.
  revert row cells.
  induction k as [|k IH]; intros row cells Hk; cbn; [by eexists|].
  destruct (lookup_lt_is_Some_2 rows row) as [r ->]; [lia|].
  destruct (IH (S row) (populateCols (split "," r) row numCols O cells))
    as (g & -> & Hg); [lia|].
  exists g. by rewrite Hg, length_populateCols.
Qed.

Lemma initializeCells_positive (numRows numCols : nat) :
  (1 ≤ numRows)%nat → (1 ≤ numCols)%nat →
  initializeCells (Z.of_nat numRows) (Z.of_nat numCols) =
    inr (replicate numRows (replicate numCols "")).
Proof.
  intros Hr Hc. unfold initializeCells.
  destruct (Z.leb_spec (Z.of_nat numRows) 0); [lia|].
  destruct (Z.leb_spec (Z.of_nat numCols) 0); [lia|].
  cbn. by rewrite !Nat2Z.id.
Qed.

Lemma cells_of_rows_S row n w :
  cells_of_rows row (S n) w =
    (((λ c, (row, c)) <$> seq O w) ++ cells_of_rows (S row) n w)%list.
Proof. done. Qed.

(** Beyond [driver_fuel], the fuel plays no role. *)
Lemma evaluateCell_driver_fuel initialCells numRows numCols fuel c st :
  (driver_fuel initialCells ≤ fuel)%nat →
  evaluateCell initialCells numRows numCols fuel c st =
  evaluateCell initialCells numRows numCols (driver_fuel initialCells) c st.
Proof.
  intros Hfuel. apply evaluateCell_mono; [done|].
  apply evaluateCell_enough. unfold driver_fuel.
  apply Nat.lt_succ_r, subseteq_size, subseteq_difference_l. done.
Qed.

Lemma colLoop_fuel fuel populatedCells numRows numCols values row k col
    evaluatedValues st :
  (driver_fuel populatedCells ≤ fuel)%nat →
  colLoop fuel populatedCells numRows numCols values row k col evaluatedValues st =
  colLoop (driver_fuel populatedCells) populatedCells numRows numCols
    values row k col evaluatedValues st.
Proof.
  intros Hfuel. revert col evaluatedValues st.
  induction k as [|k IH]; intros col evaluatedValues st; cbn [colLoop]; [done|].
  destruct (values !! col) as [v|]; [|done].
  rewrite evaluateCell_driver_fuel by done.
  destruct (evaluateCell _ _ _ _ _ _); by rewrite ?IH.
Qed.

Lemma rowLoop_fuel fuel populatedCells numRows numCols rows k row result st :
  (driver_fuel populatedCells ≤ fuel)%nat →
  rowLoop fuel populatedCells numRows numCols rows k row result st =
  rowLoop (driver_fuel populatedCells) populatedCells numRows numCols
    rows k row result st.
Proof.
  intros Hfuel. revert row result st.
  induction k as [|k IH]; intros row result st; cbn [rowLoop]; [done|].
  destruct (rows !! row) as [r|]; [|done].
  case_bool_decide; [done|].
  rewrite colLoop_fuel by done.
  destruct (colLoop _ _ _ _ _ _ _ _ _ _); by rewrite ?IH.
Qed.

Section DriverRuns.

Variable fuel : nat.
Variable populatedCells : list (list string).
Variables numRows numCols : nat.

Hypothesis enough_rows : has_rows populatedCells (Z.of_nat numRows).
Hypothesis enough_fuel : (driver_fuel populatedCells ≤ fuel)%nat.

Local Abbreviation cols := (colLoop fuel populatedCells numRows numCols).
Local Abbreviation rows_loop := (rowLoop fuel populatedCells numRows numCols).
Local Abbreviation eval :=
  (evaluateCell populatedCells (Z.of_nat numRows) (Z.of_nat numCols)).

(** Every call the driver makes returns. *)
Lemma evaluateCell_returns c st :
  ∃ r st', eval fuel c st = Done r st'.
Proof.
  destruct (eval fuel c st) as [r st'|e st'|] eqn:Hrun; [by eauto| |].
  - by apply evaluateCell_no_throw in Hrun.
  - apply evaluateCell_enough in Hrun; [done|].
    unfold driver_fuel in enough_fuel.
    eapply Nat.le_lt_trans; [apply subseteq_size|exact enough_fuel].
    apply subseteq_difference_l. done.
Qed.

Lemma colLoop_run values row k col evaluatedValues st :
  (col + k ≤ length values)%nat →
  ∃ results st',
    cols values row k col evaluatedValues st = Done results st' ∧
    invoked (trace st') =
      (invoked (trace st) ++ ((λ c, (row, c)) <$> seq col k))%list ∧
    printed (trace st') = printed (trace st).
Proof.
  revert col evaluatedValues st.
  induction k as [|k IH]; intros col evaluatedValues st Hk; cbn [colLoop].
  { exists evaluatedValues, st. by rewrite app_nil_r. }
  destruct (lookup_lt_is_Some_2 values col) as [v ->]; [lia|].
  destruct (evaluateCell_returns (Text (normalize v))
              (emit (Invoke row col (Text (normalize v)) (visitedCells st)) st))
    as (r & st2 & Hrun).
  rewrite Hrun.
  pose proof (evaluateCell_extends populatedCells (Z.of_nat numRows)
                (Z.of_nat numCols) fuel (Text (normalize v))
                (emit (Invoke row col (Text (normalize v)) (visitedCells st)) st))
    as Hext.
  rewrite Hrun in Hext. destruct Hext as [Hg _].
  apply grows_invoked in Hg as [Hinv Hpr]. cbn in Hinv, Hpr.
  rewrite invoked_app in Hinv. rewrite printed_app in Hpr. cbn in Hinv, Hpr.
  destruct (IH (S col) (evaluatedValues ++ [r])%list st2) as (rs & st' & -> & Hi & Hp);
    [lia|].
  exists rs, st'. split; [done|].
  rewrite Hi, Hp, Hinv, Hpr, app_nil_r. cbn. by rewrite <- app_assoc.
Qed.


End DriverRuns.



(** ** Tokens *)

Lemma trimEnd_cons_not_blank c r : is_space c = false → trimEnd (String c r) ≠ "".
Proof. intros Hc. cbn. rewrite Hc. by destruct (trimEnd r). Qed.

Lemma is_upper_not_space c : is_upper c = true → is_space c = false.
Proof. unfold is_upper, is_space, between. lia. Qed.

Lemma regex_not_blank token : cellRefRegex_test token = true → trim token ≠ "".
Proof.
  unfold cellRefRegex_test, trim.
  destruct token as [|c r]; [done|]. cbn [regex_run regex_step].
  destruct (is_upper c) eqn:Hc; [|done]. intros _.
  cbn [trimStart]. rewrite is_upper_not_space by done.
  by apply trimEnd_cons_not_blank, is_upper_not_space.
Qed.


Section TokenFacts.

Variable initialCells : list (list string).
Variables numRows numCols : Z.

Local Abbreviation loop := (evalTokens initialCells numRows numCols).
Local Abbreviation eval := (evaluateCell initialCells numRows numCols).

(** A text with a token the loop cannot pass never evaluates to a number. *)
Lemma out_of_bounds_never_Value s token :
  token ∈ split " " s →
  cellRefRegex_test token = true →
  in_bounds numRows numCols (getCellIndices token).1 (getCellIndices token).2 = false →
  ∀ fuel v st st', eval fuel (Text s) st ≠ Done (Value v) st'.
Proof.
  intros Hin Hregex Hout fuel v st st' Hrun.
  destruct fuel as [|fuel]; [done|]. cbn [evaluateCell] in Hrun.
  apply evalTokens_Value in Hrun. rewrite Forall_forall in Hrun.
  apply Hrun in Hin as [_ Hpass]. rewrite Hregex in Hpass.
  destruct Hpass as [Hpass _]. congruence.
Qed.


Lemma evaluateCell_ERR_plus c st :
  has_rows initialCells numRows →
  (∀ fuel v st', eval fuel c st ≠ Done (Value v) st') →
  ∃ st', ∀ k, eval (depth_bound initialCells st + k) c st = Done ERR st'.
Proof.
  intros Hrows Hno.
  destruct (evaluateCell_ERR initialCells numRows numCols c st Hrows Hno)
    as [st' Hst'].
  exists st'. intros k. apply Hst'. lia.
Qed.

(** The loop at an out-of-bounds reference, after the tokens before it. *)
Lemma evalTokens_out_of_bounds recur pre token post sum st sum1 st1 :
  loop recur pre sum st = Done (Value sum1) st1 →
  cellRefRegex_test token = true →
  in_bounds numRows numCols (getCellIndices token).1 (getCellIndices token).2 = false →
  loop recur (pre ++ token :: post) sum st =
    Done ERR (console_error
                (msg_out_of_bounds (getCellIndices token).1 (getCellIndices token).2) st1).
Proof.
  intros Hpre Hregex Hout. rewrite evalTokens_app, Hpre. cbn [evalTokens].
  rewrite bool_decide_eq_false_2 by by apply regex_not_blank.
  rewrite Hregex. destruct (getCellIndices token) as [row col]. cbn in *.
  by rewrite Hout.
Qed.


(** The loop at a reference to a cell whose text is in the Visited Set. *)
Lemma evalTokens_visited recur token rest sum st q s :
  cellRefRegex_test token = true →
  getCellIndices token = (Int (Z.of_nat q.1), Int (Z.of_nat q.2)) →
  Z.of_nat q.1 < numRows → Z.of_nat q.2 < numCols →
  content initialCells q = Some s →
  Text s ∈ visitedCells st →
  loop recur (token :: rest) sum st =
    Done ERR (console_error (msg_circular token) st).
Proof.
  intros Hregex Hindices Hr Hc Hq Hin. cbn [evalTokens].
  rewrite bool_decide_eq_false_2 by by apply regex_not_blank.
  rewrite Hregex, Hindices.
  assert (in_bounds numRows numCols (Int (Z.of_nat q.1)) (Int (Z.of_nat q.2)) = true)
    as ->.
  { unfold in_bounds. cbn. lia. }
  destruct (referenced _ _ _) as [c|] eqn:Href.
  - apply referenced_content in Href. rewrite Hq in Href. subst c. cbn.
    by rewrite bool_decide_eq_true_2.
  - unfold referenced, content in *.
    destruct (Z.ltb_spec (Z.of_nat q.1) 0); [lia|].
    rewrite Nat2Z.id in Href.
    destruct (initialCells !! q.1); done.
Qed.

(** The loop at a reference to a cell whose text is not in the Visited
    Set: the text is added, and the recursive call on it is the next
    event of the run. *)
Lemma evalTokens_recurses fuel token rest sum st q s st' :
  cellRefRegex_test token = true →
  getCellIndices token = (Int (Z.of_nat q.1), Int (Z.of_nat q.2)) →
  Z.of_nat q.1 < numRows → Z.of_nat q.2 < numCols →
  content initialCells q = Some s →
  Text s ∉ visitedCells st →
  final_state (loop (eval fuel) (token :: rest) sum st) = Some st' →
  ∃ ext,
    trace st' =
      (trace st ++ Recurse token (Text s) ({[Text s]} ∪ visitedCells st) :: ext)%list.
Proof.
  intros Hregex Hindices Hr Hc Hq Hnew. cbn [evalTokens].
  rewrite bool_decide_eq_false_2 by by apply regex_not_blank.
  rewrite Hregex, Hindices.
  assert (in_bounds numRows numCols (Int (Z.of_nat q.1)) (Int (Z.of_nat q.2)) = true)
    as ->.
  { unfold in_bounds. cbn. lia. }
  assert (referenced initialCells (Int (Z.of_nat q.1)) (Int (Z.of_nat q.2)) =
            Some (Text s)) as ->.
  { unfold referenced, content in *.
    destruct (Z.ltb_spec (Z.of_nat q.1) 0); [lia|].
    rewrite Nat2Z.id. destruct (initialCells !! q.1) as [cells|]; [|done].
    cbn in Hq. destruct (Z.ltb_spec (Z.of_nat q.2) 0); [lia|].
    by rewrite Nat2Z.id, Hq. }
  rewrite bool_decide_eq_false_2 by done. cbn zeta.
  set (st2 := emit _ (visited_add (Text s) st)).
  assert (trace st2 =
            (trace st ++ [Recurse token (Text s) ({[Text s]} ∪ visitedCells st)])%list)
    as Htrace by done.
  pose proof (evaluateCell_extends initialCells numRows numCols fuel (Text s) st2)
    as Hcall.
  destruct (eval fuel (Text s) st2) as [[v|] st3|e st3|]; cbn in Hcall.
  - intros Hfinal.
    pose proof (evalTokens_extends initialCells numRows numCols (eval fuel)
                  (evaluateCell_extends initialCells numRows numCols fuel)
                  rest (add sum v) (visited_delete (Text s) st3)) as Hrest.
    destruct (loop (eval fuel) rest _ _) as [r st4|e st4|]; cbn in Hfinal, Hrest;
      [| |done]; simplify_eq.
    + destruct Hcall as [(e1 & H1 & _) _]. destruct Hrest as [(e2 & H2 & _) _].
      exists (e1 ++ e2)%list. cbn in H2. rewrite H2, H1, Htrace.
      by rewrite <- !app_assoc.
    + destruct Hcall as [(e1 & H1 & _) _]. destruct Hrest as (e2 & H2 & _).
      exists (e1 ++ e2)%list. cbn in H2. rewrite H2, H1, Htrace.
      by rewrite <- !app_assoc.
  - intros [= <-]. destruct Hcall as [(e1 & H1 & _) _]. exists e1.
    rewrite H1, Htrace. by rewrite <- app_assoc.
  - intros [= <-]. destruct Hcall as (e1 & H1 & _). exists e1.
    rewrite H1, Htrace. by rewrite <- app_assoc.
  - done.
Qed.

(** The loop at a reference to a cell whose text is not in the Visited
    Set: the recursive call is made on the text, with the text added to
    the set, and the text is removed again when the call returns a
    number. *)
Lemma evalTokens_reference recur token rest sum st q s :
  cellRefRegex_test token = true →
  getCellIndices token = (Int (Z.of_nat q.1), Int (Z.of_nat q.2)) →
  Z.of_nat q.1 < numRows → Z.of_nat q.2 < numCols →
  content initialCells q = Some s →
  Text s ∉ visitedCells st →
  loop recur (token :: rest) sum st =
    match recur (Text s)
            (emit (Recurse token (Text s) ({[Text s]} ∪ visitedCells st))
               (visited_add (Text s) st)) with
    | Done (Value refValue) st3 =>
        loop recur rest (add sum refValue) (visited_delete (Text s) st3)
    | Done ERR st3 => Done ERR st3
    | Thrown e st3 => Thrown e st3
    | OutOfFuel => OutOfFuel
    end.
Proof.
  intros Hregex Hindices Hr Hc Hq Hnew. cbn [evalTokens].
  rewrite bool_decide_eq_false_2 by by apply regex_not_blank.
  rewrite Hregex, Hindices.
  assert (in_bounds numRows numCols (Int (Z.of_nat q.1)) (Int (Z.of_nat q.2)) = true)
    as ->.
  { unfold in_bounds. cbn. lia. }
  assert (referenced initialCells (Int (Z.of_nat q.1)) (Int (Z.of_nat q.2)) =
            Some (Text s)) as ->.
  { unfold referenced, content in *.
    destruct (Z.ltb_spec (Z.of_nat q.1) 0); [lia|].
    rewrite Nat2Z.id. destruct (initialCells !! q.1) as [cells|]; [|done].
    cbn in Hq. destruct (Z.ltb_spec (Z.of_nat q.2) 0); [lia|].
    by rewrite Nat2Z.id, Hq. }
  by rewrite bool_decide_eq_false_2 by done.
Qed.

End TokenFacts.


(** ** The twin grid has no reference cycle *)

Lemma twin_grid_edge p q :
  edge twin_grid 1 4 p q →
  content twin_grid p ≠ Some "x" ∧ content twin_grid q = Some "x".
Proof.
  intros (s & Hs & token & Hin & Hregex & Hindices & Hr & Hc).
  destruct p as [r c]. unfold content, twin_grid in Hs. cbn in Hs.
  destruct r as [|r]; [|done]. cbn in Hs.
  destruct c as [|[|[|[|c]]]]; cbn in Hs; try done; injection Hs as <-.
  - change (split " " "B1") with ["B1"] in Hin.
    apply list_elem_of_singleton in Hin as ->.
    change (getCellIndices "B1") with (Int 0, Int 1) in Hindices.
    injection Hindices as H1 H2. destruct q as [qr qc]. cbn in *.
    assert (qr = 0%nat) as -> by lia. assert (qc = 1%nat) as -> by lia.
    done.
  - change (split " " "x") with ["x"] in Hin.
    by apply list_elem_of_singleton in Hin as ->.
  - change (split " " "x") with ["x"] in Hin.
    by apply list_elem_of_singleton in Hin as ->.
  - change (split " " "C1") with ["C1"] in Hin.
    apply list_elem_of_singleton in Hin as ->.
    change (getCellIndices "C1") with (Int 0, Int 2) in Hindices.
    injection Hindices as H1 H2. destruct q as [qr qc]. cbn in *.
    assert (qr = 0%nat) as -> by lia. assert (qc = 2%nat) as -> by lia.
    done.
Qed.

Lemma twin_grid_cycle_free : cycle_free twin_grid 1 4.
Proof.
  intros p Hcycle. unfold on_cycle in Hcycle.
  assert (∀ x y, tc (edge twin_grid 1 4) x y →
                 content twin_grid x ≠ Some "x") as Hsource.
  { intros x y [? ? H|? ? ? H _]; by apply twin_grid_edge in H as [? _]. }
  assert (∀ x y, tc (edge twin_grid 1 4) x y →
                 content twin_grid y = Some "x") as Htarget.
  { intros x y H. induction H as [? ? H|? ? ? _ _ IH]; [|done].
    by apply twin_grid_edge in H as [_ ?]. }
  by apply (Hsource p p Hcycle), (Htarget p p).
Qed.

Lemma self_grid_on_cycle : on_cycle self_grid 3 3 (O, O).
Proof.
  apply tc_once. exists "A1". split; [done|]. exists "A1".
  split; [by apply list_elem_of_singleton|]. by repeat split.
Qed.

Lemma loop_grid_on_cycle : on_cycle loop_grid 1 2 (O, O).
Proof.
  apply tc_l with (O, 1%nat); [|apply tc_once].
  - exists "B1". split; [done|]. exists "B1".
    split; [by apply list_elem_of_singleton|]. by repeat split.
  - exists "A1". split; [done|]. exists "A1".
    split; [by apply list_elem_of_singleton|]. by repeat split.
Qed.


(** * The claims *)

(** ** C1: the Visited Set handed to the cells of a grid pass *)

(** C1 fails on the code.  [processCSV] creates one Visited Set for the
    whole pass, and [evaluateCell] takes the entry of a reference out of
    the set only after the recursive call returned a number: the return
    of the error marker comes before the removal.  On the input "B1,x"
    the evaluation of A1 recurses into B1, whose text "x" is invalid,
    and returns the error marker with "x" still in the set; the
    top-level evaluation of B1 is then handed the set {"x"}, not an
    empty one.  On "B1,5", where the recursive call returns a number,
    the entry is removed and B1 is handed the empty set. *)
Theorem shared_visited_set_keeps_entries :
  processCSV 2 "B1,x" =
    Done tt (mkState {[Text "x"]}
      [Invoke 0 0 (Text "B1") ∅;
       Recurse "B1" (Text "x") {[Text "x"]};
       ConsoleError "Invalid cell value format -> 'x'. Verify. Defaulting to #ERR.";
       Invoke 0 1 (Text "x") {[Text "x"]};
       ConsoleError "Invalid cell value format -> 'x'. Verify. Defaulting to #ERR.";
       ConsoleLog "#ERR,#ERR"]) ∧
  ({[Text "x"]} : gset cell) ≠ ∅ ∧
  processCSV 2 "B1,5" =
    Done tt (mkState ∅
      [Invoke 0 0 (Text "B1") ∅;
       Recurse "B1" (Text "5") {[Text "5"]};
       Invoke 0 1 (Text "5") ∅;
       ConsoleLog "5,5"]).
Proof.
  split; [by vm_compute|].
  split; [apply non_empty_singleton_L|].
  by vm_compute.
Qed.

(** ** C2: cycle detection is keyed by cell text *)

(** C2.  At a reference token, after the tokens before it, the Visited
    Set is consulted and extended by the text of the referenced cell,
    not by its position.  If that text is in the set, the evaluation
    ends with the circular-dependence message naming the token and the
    error marker, whichever cell put the text there.  If it is not, the
    text is added, the recursive call is made on it with the set so
    extended (the next event of the run), and the text is removed again
    only when that call returns a number.
    Consequently the twin grid, which has no reference cycle and whose
    distinct cells B1 and C1 both hold "x", makes [evaluateCell] report a
    circular dependence: evaluating A1 (text "B1") puts "x" into the set
    and leaves it there, and evaluating D1 (text "C1") then finds the
    text of C1 in the set, reports the circular dependence and returns
    the error marker, where from an empty set it reports the invalid
    text of C1. *)
Theorem cycle_detection_by_content :
  (∀ (initialCells : list (list string)) (numRows numCols : Z) (fuel : nat)
     (s : string) (pre : list string) (token : string) (post : list string)
     (q : nat * nat) (text : string) (st : state) (sum : number) (st1 : state),
     split " " s = (pre ++ token :: post)%list →
     evalTokens initialCells numRows numCols
       (evaluateCell initialCells numRows numCols fuel) pre (Int 0) st =
       Done (Value sum) st1 →
     cellRefRegex_test token = true →
     getCellIndices token = (Int (Z.of_nat q.1), Int (Z.of_nat q.2)) →
     Z.of_nat q.1 < numRows → Z.of_nat q.2 < numCols →
     content initialCells q = Some text →
     (Text text ∈ visitedCells st1 →
      evaluateCell initialCells numRows numCols (S fuel) (Text s) st =
        Done ERR
          (console_error
             ("Circular dependence detected in cell '" ++ token ++
              "'.Defaulting them to #ERR") st1)) ∧
     (Text text ∉ visitedCells st1 →
      evaluateCell initialCells numRows numCols (S fuel) (Text s) st =
        match evaluateCell initialCells numRows numCols fuel (Text text)
                (emit (Recurse token (Text text) ({[Text text]} ∪ visitedCells st1))
                   (visited_add (Text text) st1)) with
        | Done (Value refValue) st3 =>
            evalTokens initialCells numRows numCols
              (evaluateCell initialCells numRows numCols fuel) post
              (add sum refValue) (visited_delete (Text text) st3)
        | Done ERR st3 => Done ERR st3
        | Thrown e st3 => Thrown e st3
        | OutOfFuel => OutOfFuel
        end ∧
      ∀ st',
        final_state
          (evaluateCell initialCells numRows numCols (S fuel) (Text s) st) =
          Some st' →
        ∃ ext,
          trace st' =
            (trace st1 ++
             Recurse token (Text text) ({[Text text]} ∪ visitedCells st1) :: ext)%list)) ∧
  cycle_free twin_grid 1 4 ∧
  content twin_grid (O, 1%nat) = Some "x" ∧
  content twin_grid (O, 2%nat) = Some "x" ∧
  evaluateCell twin_grid 1 4 2 (Text "B1") fresh =
    Done ERR (mkState {[Text "x"]}
                [Recurse "B1" (Text "x") {[Text "x"]};
                 ConsoleError
                   "Invalid cell value format -> 'x'. Verify. Defaulting to #ERR."]) ∧
  evaluateCell twin_grid 1 4 2 (Text "C1")
      (mkState {[Text "x"]}
         [Recurse "B1" (Text "x") {[Text "x"]};
          ConsoleError
            "Invalid cell value format -> 'x'. Verify. Defaulting to #ERR."]) =
    Done ERR (mkState {[Text "x"]}
                [Recurse "B1" (Text "x") {[Text "x"]};
                 ConsoleError
                   "Invalid cell value format -> 'x'. Verify. Defaulting to #ERR.";
                 ConsoleError
                   "Circular dependence detected in cell 'C1'.Defaulting them to #ERR"]) ∧
  evaluateCell twin_grid 1 4 2 (Text "C1") fresh =
    Done ERR (mkState {[Text "x"]}
                [Recurse "C1" (Text "x") {[Text "x"]};
                 ConsoleError
                   "Invalid cell value format -> 'x'. Verify. Defaulting to #ERR."]) ∧
  processCSV 2 twin_csv =
    Done tt (mkState {[Text "x"]}
      [Invoke 0 0 (Text "B1") ∅;
       Recurse "B1" (Text "x") {[Text "x"]};
       ConsoleError "Invalid cell value format -> 'x'. Verify. Defaulting to #ERR.";
       Invoke 0 1 (Text "x") {[Text "x"]};
       ConsoleError "Invalid cell value format -> 'x'. Verify. Defaulting to #ERR.";
       Invoke 0 2 (Text "x") {[Text "x"]};
       ConsoleError "Invalid cell value format -> 'x'. Verify. Defaulting to #ERR.";
       Invoke 0 3 (Text "C1") {[Text "x"]};
       ConsoleError
         "Circular dependence detected in cell 'C1'.Defaulting them to #ERR";
       ConsoleLog "#ERR,#ERR,#ERR,#ERR"]).
Proof.
  split.
  { intros initialCells numRows numCols fuel s pre token post q text st sum st1
      Hsplit Hpre Hregex Hindices Hr Hc Hq.
    cbn [evaluateCell]. rewrite Hsplit, evalTokens_app, Hpre. split.
    - intros Hin. by eapply evalTokens_visited.
    - intros Hnew. split; [by eapply evalTokens_reference|].
      intros st' Hfinal. by eapply evalTokens_recurses. }
  split; [apply twin_grid_cycle_free|].
  repeat split; by vm_compute.
Qed.

Lemma cycle_detection_by_content_witness :
  split " " "7 C1" = (["7"] ++ "C1" :: [])%list ∧
  evalTokens twin_grid 1 4 (evaluateCell twin_grid 1 4 0) ["7"] (Int 0)
    (mkState {[Text "x"]} []) = Done (Value (Int 7)) (mkState {[Text "x"]} []) ∧
  cellRefRegex_test "C1" = true ∧
  getCellIndices "C1" = (Int (Z.of_nat 0), Int (Z.of_nat 2)) ∧
  Z.of_nat 0 < 1 ∧ Z.of_nat 2 < 4 ∧
  content twin_grid (O, 2%nat) = Some "x" ∧
  Text "x" ∈ ({[Text "x"]} : gset cell) ∧
  evaluateCell twin_grid 1 4 1 (Text "7 C1") (mkState {[Text "x"]} []) =
    Done ERR
      (console_error
         "Circular dependence detected in cell 'C1'.Defaulting them to #ERR"
         (mkState {[Text "x"]} [])).
Proof.
  assert (Text "x" ∈ ({[Text "x"]} : gset cell)) as Hin
    by (apply elem_of_singleton; reflexivity).
  do 4 (split; [reflexivity|]). do 2 (split; [reflexivity|]).
  split; [reflexivity|]. split; [exact Hin|].
  exact (proj1 (proj1 cycle_detection_by_content twin_grid 1 4 O "7 C1" ["7"]
                  "C1" [] (O, 2%nat) "x" (mkState {[Text "x"]} []) (Int 7)
                  (mkState {[Text "x"]} [])
                  eq_refl eq_refl eq_refl eq_refl eq_refl eq_refl eq_refl) Hin).
Defined.

(** ** C3: the returned value *)

(** C3 fails on the code: the token ".5" passes the [isNaN] test, since
    [Number(".5")] is 0.5, but [parseInt(".5")] is NaN, so the sum that
    [evaluateCell] returns is NaN: neither an integer nor the error
    marker.  [processCSV] prints it. *)
Theorem evaluateCell_returns_NaN :
  isNaN ".5" = false ∧
  parseInt ".5" = NaN ∧
  evaluateCell [[".5"]] 1 1 1 (Text ".5") fresh = Done (Value NaN) fresh ∧
  processCSV 1 ".5" =
    Done tt (mkState ∅ [Invoke 0 0 (Text ".5") ∅; ConsoleLog "NaN"]).
Proof. repeat split; by vm_compute. Qed.

(** ** C4: getCellIndices *)

(** C4, as stated, fails: "AB12" matches the reference pattern, and the
    digits after its letters denote 12, but [getCellIndices] parses
    everything after the first character, "B12", which is not a number:
    the row is NaN, not 11. *)
Lemma getCellIndices_two_letters :
  cellRefRegex_test "AB12" = true ∧
  prescribed_indices "AB12" = (Int 11, Int 0) ∧
  getCellIndices "AB12" = (NaN, Int 0).
Proof. repeat split; by vm_compute. Qed.

(** C4, amended: for every token made of one capital letter followed by
    one or two digits, the token matches the reference pattern and
    [getCellIndices] returns (digits - 1, letter - "A"). *)
Theorem getCellIndices_single_letter (letter : ascii) (digits : string) :
  is_upper letter = true →
  all_chars is_digit digits = true →
  (1 ≤ String.length digits ≤ 2)%nat →
  cellRefRegex_test (String letter digits) = true ∧
  getCellIndices (String letter digits) =
    (Int (decimal_value 0 digits - 1), Int (code letter - 65)) ∧
  getCellIndices (String letter digits) =
    prescribed_indices (String letter digits).
Proof.
  intros Hl Hd Hlen.
  destruct (single_letter_reference letter digits Hl Hd Hlen) as [Hregex Hidx].
  split; [done|]. split; [done|].
  rewrite Hidx. unfold prescribed_indices. cbn [after_letters charCodeAt0 sub].
  rewrite Hl.
  assert (after_letters digits = digits) as ->; [|done].
  destruct digits as [|d r]; [done|]. cbn in Hd.
  apply andb_prop in Hd as [Hd _]. cbn.
  by rewrite is_digit_not_upper.
Qed.

Lemma getCellIndices_single_letter_witness :
  (is_upper "A" = true ∧ all_chars is_digit "12" = true ∧
   (1 ≤ String.length "12" ≤ 2)%nat ∧
   getCellIndices "A12" = (Int 11, Int 0)) ∧
  (is_upper "D" = true ∧ all_chars is_digit "5" = true ∧
   (1 ≤ String.length "5" ≤ 2)%nat ∧
   getCellIndices "D5" = (Int 4, Int 3)).
Proof.
  assert (1 ≤ String.length "12" ≤ 2)%nat as Hlen2 by (cbn; lia).
  assert (1 ≤ String.length "5" ≤ 2)%nat as Hlen1 by (cbn; lia).
  split.
  - split; [reflexivity|]. split; [reflexivity|]. split; [exact Hlen2|].
    exact (proj1 (proj2 (getCellIndices_single_letter "A" "12" eq_refl eq_refl Hlen2))).
  - split; [reflexivity|]. split; [reflexivity|]. split; [exact Hlen1|].
    exact (proj1 (proj2 (getCellIndices_single_letter "D" "5" eq_refl eq_refl Hlen1))).
Defined.


(** ** C5: reference cycles *)

(** C5.  In a grid that has a row for every admitted row index, the text
    of a cell whose reference chain returns to a cell it has passed (the
    cell names itself, two cells name each other, or the chain runs into
    a longer cycle) evaluates to the error marker, from every Visited
    Set. *)
Theorem circular_reference_evaluates_to_ERR
    (initialCells : list (list string)) (numRows numCols : Z)
    (p : nat * nat) (s : string) (st : state) :
  has_rows initialCells numRows →
  content initialCells p = Some s →
  leads_to_cycle initialCells numRows numCols p →
  ∃ st', ∀ k,
    evaluateCell initialCells numRows numCols
      (depth_bound initialCells st + k) (Text s) st = Done ERR st'.
Proof.
  intros Hrows Hp Hcycle. apply evaluateCell_ERR_plus; [done|].
  intros fuel v st'. eapply no_value_on_walk; [done|].
  by apply leads_to_cycle_walk.
Qed.

Lemma circular_reference_evaluates_to_ERR_witness :
  (has_rows loop_grid 1 ∧
   content loop_grid (O, O) = Some "B1" ∧
   leads_to_cycle loop_grid 1 2 (O, O) ∧
   ∃ st', ∀ k,
     evaluateCell loop_grid 1 2 (depth_bound loop_grid fresh + k) (Text "B1") fresh =
       Done ERR st') ∧
  (has_rows self_grid 3 ∧
   content self_grid (O, O) = Some "A1" ∧
   leads_to_cycle self_grid 3 3 (O, O) ∧
   ∃ st', ∀ k,
     evaluateCell self_grid 3 3 (depth_bound self_grid fresh + k) (Text "A1") fresh =
       Done ERR st').
Proof.
  assert (has_rows loop_grid 1) as Hrows by (unfold has_rows; cbn; lia).
  assert (has_rows self_grid 3) as Hrows' by (unfold has_rows; cbn; lia).
  assert (leads_to_cycle loop_grid 1 2 (O, O)) as Hloop
    by (exists (O, O); split; [apply rtc_refl|exact loop_grid_on_cycle]).
  assert (leads_to_cycle self_grid 3 3 (O, O)) as Hself
    by (exists (O, O); split; [apply rtc_refl|exact self_grid_on_cycle]).
  split.
  - split; [exact Hrows|]. split; [reflexivity|]. split; [exact Hloop|].
    exact (circular_reference_evaluates_to_ERR loop_grid 1 2 (O, O) "B1" fresh
             Hrows eq_refl Hloop).
  - split; [exact Hrows'|]. split; [reflexivity|]. split; [exact Hself|].
    exact (circular_reference_evaluates_to_ERR self_grid 3 3 (O, O) "A1" fresh
             Hrows' eq_refl Hself).
Defined.

(** ** C6: references outside the grid *)

(** C6.  Let a cell text have a token that matches the reference pattern
    and resolves outside [0, numRows) x [0, numCols).  Then the text
    evaluates to the error marker; and once the tokens before that token
    have been summed, leaving the state [st1], the evaluation ends at
    once: the final state is [st1] with the one out-of-bounds message
    added, so no recursive call is made for the token, the Visited Set
    is not touched, and the tokens after it play no role. *)
Theorem out_of_bounds_reference_stops_evaluation
    (initialCells : list (list string)) (numRows numCols : Z)
    (s : string) (pre : list string) (token : string) (post : list string)
    (st : state) :
  has_rows initialCells numRows →
  split " " s = (pre ++ token :: post)%list →
  cellRefRegex_test token = true →
  in_bounds numRows numCols (getCellIndices token).1 (getCellIndices token).2 = false →
  (∃ st', ∀ k,
     evaluateCell initialCells numRows numCols
       (depth_bound initialCells st + k) (Text s) st = Done ERR st') ∧
  (∀ fuel sum st1,
     evalTokens initialCells numRows numCols
       (evaluateCell initialCells numRows numCols fuel) pre (Int 0) st =
       Done (Value sum) st1 →
     evaluateCell initialCells numRows numCols (S fuel) (Text s) st =
       Done ERR
         (console_error
            (msg_out_of_bounds (getCellIndices token).1 (getCellIndices token).2)
            st1)).
Proof.
  intros Hrows Hsplit Hregex Hout. split.
  - apply evaluateCell_ERR_plus; [done|]. intros fuel v st'.
    eapply out_of_bounds_never_Value; [|done..].
    rewrite Hsplit. apply elem_of_app. right. by left.
  - intros fuel sum st1 Hpre. cbn [evaluateCell]. rewrite Hsplit.
    by eapply evalTokens_out_of_bounds.
Qed.

Lemma out_of_bounds_reference_stops_evaluation_witness :
  has_rows [["5"; "7"]] 1 ∧
  split " " "A1 A4 B1" = (["A1"] ++ "A4" :: ["B1"])%list ∧
  cellRefRegex_test "A4" = true ∧
  in_bounds 1 2 (getCellIndices "A4").1 (getCellIndices "A4").2 = false ∧
  evalTokens [["5"; "7"]] 1 2 (evaluateCell [["5"; "7"]] 1 2 1) ["A1"] (Int 0) fresh =
    Done (Value (Int 5)) (mkState ∅ [Recurse "A1" (Text "5") {[Text "5"]}]) ∧
  evaluateCell [["5"; "7"]] 1 2 2 (Text "A1 A4 B1") fresh =
    Done ERR
      (console_error (msg_out_of_bounds (getCellIndices "A4").1 (getCellIndices "A4").2)
         (mkState ∅ [Recurse "A1" (Text "5") {[Text "5"]}])).
Proof.
  assert (has_rows [["5"; "7"]] 1) as Hrows by (unfold has_rows; cbn; lia).
  assert (evalTokens [["5"; "7"]] 1 2 (evaluateCell [["5"; "7"]] 1 2 1)
            ["A1"] (Int 0) fresh =
          Done (Value (Int 5)) (mkState ∅ [Recurse "A1" (Text "5") {[Text "5"]}]))
    as Hpre by (vm_compute; reflexivity).
  split; [exact Hrows|]. do 3 (split; [reflexivity|]). split; [exact Hpre|].
  exact (proj2 (out_of_bounds_reference_stops_evaluation [["5"; "7"]] 1 2
                  "A1 A4 B1" ["A1"] "A4" ["B1"] fresh Hrows eq_refl eq_refl eq_refl)
           1%nat (Int 5) _ Hpre).
Defined.

(** ** C7: tokens that are neither references nor numbers *)




(** ** C8: rows with a different field count *)




(** ** C9: the Visited Set after a successful call *)

(** C9.  Whenever a call of [evaluateCell] returns an integer, the
    Visited Set after the call is the Visited Set before the call. *)
Theorem visited_set_restored_on_success
    (initialCells : list (list string)) (numRows numCols : Z)
    (fuel : nat) (c : cell) (st st' : state) (z : Z) :
  evaluateCell initialCells numRows numCols fuel c st = Done (Value (Int z)) st' →
  visitedCells st' = visitedCells st.
Proof. apply evaluateCell_frame. Qed.

Lemma visited_set_restored_on_success_witness :
  evaluateCell [["5"; "A1 A1"]] 1 2 3 (Text "B1 7") fresh =
    Done (Value (Int 17))
      (mkState ∅ [Recurse "B1" (Text "A1 A1") {[Text "A1 A1"]};
                  Recurse "A1" (Text "5") {[Text "5"; Text "A1 A1"]};
                  Recurse "A1" (Text "5") {[Text "5"; Text "A1 A1"]}]) ∧
  visitedCells
    (mkState ∅ [Recurse "B1" (Text "A1 A1") {[Text "A1 A1"]};
                Recurse "A1" (Text "5") {[Text "5"; Text "A1 A1"]};
                Recurse "A1" (Text "5") {[Text "5"; Text "A1 A1"]}]) =
  visitedCells fresh.
Proof.
  assert (evaluateCell [["5"; "A1 A1"]] 1 2 3 (Text "B1 7") fresh =
    Done (Value (Int 17))
      (mkState ∅ [Recurse "B1" (Text "A1 A1") {[Text "A1 A1"]};
                  Recurse "A1" (Text "5") {[Text "5"; Text "A1 A1"]};
                  Recurse "A1" (Text "5") {[Text "5"; Text "A1 A1"]}])) as Hrun
    by (vm_compute; reflexivity).
  split; [exact Hrun|].
  exact (visited_set_restored_on_success _ _ _ _ _ _ _ _ Hrun).
Defined.

(** ** C10: termination *)

(** C10 fails on the code in what the completed call yields.  The call
    below recurses once, into the cell B1 with the text ".5", and runs
    to completion at every recursion depth from 2 on; but the token ".5"
    passes the [isNaN] test while [parseInt(".5")] is NaN, so the call
    yields NaN: neither an integer nor the error marker. *)
Theorem evaluateCell_completes_with_NaN :
  has_rows [["B1 2"; ".5"]] 1 ∧
  ∀ k, evaluateCell [["B1 2"; ".5"]] 1 2 (2 + k) (Text "B1 2") fresh =
         Done (Value NaN)
           (mkState ∅ [Recurse "B1" (Text ".5") {[Text ".5"]}]).
Proof.
  split; [unfold has_rows; cbn; lia|].
  intros k.
  assert (evaluateCell [["B1 2"; ".5"]] 1 2 2 (Text "B1 2") fresh =
            Done (Value NaN)
              (mkState ∅ [Recurse "B1" (Text ".5") {[Text ".5"]}])) as Hrun
    by (vm_compute; reflexivity).
  rewrite (evaluateCell_mono [["B1 2"; ".5"]] 1 2 2 (2 + k)) by (lia || by rewrite Hrun).
  exact Hrun.
Qed.


(** * Further properties of the evaluator *)

Section EvaluatorMore.

Variable initialCells : list (list string).
Variables numRows numCols : Z.

Local Abbreviation loop := (evalTokens initialCells numRows numCols).
Local Abbreviation eval := (evaluateCell initialCells numRows numCols).
Local Abbreviation values := (grid_values initialCells).

(** The loop over numeric tokens only adds. *)
Lemma evalTokens_numeric recur tokens sum st :
  Forall numeric_token tokens →
  loop recur tokens sum st =
    Done (Value (foldl add sum (parseInt <$> tokens))) st.
Proof.
  intros Hall. revert sum.
  induction Hall as [|token rest (Hblank & Hregex & Hnan) _ IH]; intros sum;
    cbn [evalTokens]; [done|].
  rewrite bool_decide_eq_false_2 by done. rewrite Hregex, Hnan. cbn [negb].
  by rewrite IH.
Qed.

(** A run never takes an entry out of the set it was given, and what it
    leaves in besides are values of the grid. *)
Lemma evalTokens_visited_bounds recur :
  (∀ c st o st', recur c st = o → final_state o = Some st' →
     visitedCells st ⊆ visitedCells st' ∧
     visitedCells st' ⊆ visitedCells st ∪ values) →
  (∀ c st n st', recur c st = Done (Value n) st' →
                 visitedCells st' = visitedCells st) →
  ∀ tokens sum st o st',
    loop recur tokens sum st = o → final_state o = Some st' →
    visitedCells st ⊆ visitedCells st' ∧
    visitedCells st' ⊆ visitedCells st ∪ values.
Proof.
  intros Hrec Hframe tokens.
  induction tokens as [|token rest IH]; intros sum st o st' Hrun Hfin;
    cbn [evalTokens] in Hrun.
  { subst o. injection Hfin as <-. set_solver. }
  branches Hrun; try (subst o; injection Hfin as <-; cbn; set_solver).
  - destruct (recur _ _) as [[v|] st3|e st3|] eqn:Hcall.
    + pose proof (Hframe _ _ _ _ Hcall) as Hsame. cbn in Hsame.
      destruct (IH _ _ _ _ Hrun Hfin) as [H1 H2]. cbn in H1, H2.
      rewrite Hsame, add_delete_fresh in H1, H2 by done. done.
    + subst o. injection Hfin as <-.
      destruct (Hrec _ _ _ st3 Hcall eq_refl) as [H1 H2]. cbn in H1, H2.
      apply referenced_in_values in Href. set_solver.
    + subst o. injection Hfin as <-.
      destruct (Hrec _ _ _ st3 Hcall eq_refl) as [H1 H2]. cbn in H1, H2.
      apply referenced_in_values in Href. set_solver.
    + by subst o.
  - eauto.
Qed.

Lemma evaluateCell_visited_bounds fuel c st o st' :
  eval fuel c st = o → final_state o = Some st' →
  visitedCells st ⊆ visitedCells st' ∧
  visitedCells st' ⊆ visitedCells st ∪ values.
Proof.
  revert c st o st'.
  induction fuel as [|fuel IH]; intros c st o st' Hrun Hfin; cbn in Hrun.
  { by subst o. }
  destruct c as [|s].
  - subst o. injection Hfin as <-. cbn. set_solver.
  - eapply evalTokens_visited_bounds; eauto using evaluateCell_frame.
Qed.

(** A run that returns a number from some set returns the same number
    from every smaller set. *)
Lemma evalTokens_smaller_set recur :
  (∀ c st st' n st1', visitedCells st ⊆ visitedCells st' →
     recur c st' = Done (Value n) st1' →
     ∃ st1, recur c st = Done (Value n) st1) →
  (∀ c st n st', recur c st = Done (Value n) st' →
                 visitedCells st' = visitedCells st) →
  ∀ tokens sum st st' n st1',
    visitedCells st ⊆ visitedCells st' →
    loop recur tokens sum st' = Done (Value n) st1' →
    ∃ st1, loop recur tokens sum st = Done (Value n) st1.
Proof.
  intros Hrec Hframe tokens.
  induction tokens as [|token rest IH]; intros sum st st' n st1' Hsub Hrun;
    cbn [evalTokens] in *.
  { injection Hrun as <- _. eauto. }
  branches Hrun; try done; [|eauto].
  destruct (recur _ _) as [[v|] st3'|e st3'|] eqn:Hcall'; try done.
  rewrite bool_decide_eq_false_2 by set_solver.
  pose proof (λ H, Hrec referencedCell
                (emit (Recurse token referencedCell
                         (visitedCells (visited_add referencedCell st)))
                   (visited_add referencedCell st)) _ _ _ H Hcall') as Hcall.
  destruct Hcall as [st3 Hcall]; [cbn; set_solver|].
  rewrite Hcall.
  apply Hframe in Hcall, Hcall'. cbn in Hcall, Hcall'.
  eapply IH; [|exact Hrun]. cbn. rewrite Hcall, Hcall'. set_solver.
Qed.

Lemma evaluateCell_smaller_set fuel c st st' n st1' :
  visitedCells st ⊆ visitedCells st' →
  eval fuel c st' = Done (Value n) st1' →
  ∃ st1, eval fuel c st = Done (Value n) st1.
Proof.
  revert c st st' n st1'.
  induction fuel as [|fuel IH]; intros c st st' n st1' Hsub Hrun; [done|].
  destruct c as [|s]; [done|]. cbn [evaluateCell] in *.
  eapply evalTokens_smaller_set; eauto using evaluateCell_frame.
Qed.

(** Two runs at any depths agree once both have ended. *)
Lemma evaluateCell_fuel_agree fuel1 fuel2 c st o1 o2 :
  eval fuel1 c st = o1 → eval fuel2 c st = o2 →
  o1 ≠ OutOfFuel → o2 ≠ OutOfFuel → o1 = o2.
Proof.
  intros H1 H2 Hn1 Hn2.
  destruct (Nat.le_ge_cases fuel1 fuel2) as [Hle|Hle].
  - rewrite <- H1, <- H2. symmetry. apply evaluateCell_mono; [done|].
    by rewrite H1.
  - rewrite <- H1, <- H2. apply evaluateCell_mono; [done|]. by rewrite H2.
Qed.

(** The number a cell evaluates to depends neither on the Visited Set nor
    on the depth. *)
Lemma evaluateCell_same_value fuel1 fuel2 c st1 st2 n1 n2 st1' st2' :
  eval fuel1 c st1 = Done (Value n1) st1' →
  eval fuel2 c st2 = Done (Value n2) st2' →
  n1 = n2.
Proof.
  intros H1 H2.
  destruct (evaluateCell_smaller_set fuel1 c fresh st1 n1 st1'
              (empty_subseteq _) H1) as [s1 F1].
  destruct (evaluateCell_smaller_set fuel2 c fresh st2 n2 st2'
              (empty_subseteq _) H2) as [s2 F2].
  pose proof (evaluateCell_fuel_agree _ _ _ _ _ _ F1 F2
                ltac:(done) ltac:(done)) as Heq.
  by injection Heq.
Qed.

End EvaluatorMore.


(** ** Entries left in the Visited Set *)

Section LeftEntries.

Variable initialCells : list (list string).
Variables numRows numCols : Z.

Local Abbreviation loop := (evalTokens initialCells numRows numCols).
Local Abbreviation eval := (evaluateCell initialCells numRows numCols).
Local Abbreviation within := (value_within initialCells numRows numCols).

Lemma value_within_run fuel c st n st' :
  eval fuel c st = Done (Value n) st' → within fuel c = true.
Proof.
  intros Hrun. unfold value_within.
  destruct (evaluateCell_smaller_set initialCells numRows numCols
              fuel c fresh st n st' (empty_subseteq _) Hrun) as [st1 ->].
  done.
Qed.

Lemma value_within_fresh fuel c :
  within fuel c = true → ∃ n st', eval fuel c fresh = Done (Value n) st'.
Proof.
  unfold value_within.
  destruct (eval fuel c fresh) as [[n|] st'|e st'|]; try done. eauto.
Qed.

Lemma value_within_mono fuel fuel' c :
  (fuel ≤ fuel')%nat → within fuel c = true → within fuel' c = true.
Proof.
  intros Hle H. apply value_within_fresh in H as (n & st' & Hrun).
  unfold value_within. rewrite (evaluateCell_mono _ _ _ fuel fuel'), Hrun;
    [done|done|by rewrite Hrun].
Qed.

Lemma rank_exists fuel c :
  within fuel c = true → ∃ r, (r ≤ fuel)%nat ∧ rank initialCells numRows numCols r c.
Proof.
  induction fuel as [|fuel IH]; intros H; [done|].
  destruct (within fuel c) eqn:Hprev.
  - destruct IH as (r & Hr & Hrank); [done|]. exists r. split; [lia|done].
  - exists (S fuel). split; [done|]. split; [done|].
    intros k Hk. destruct (within k c) eqn:Hk'; [|done].
    rewrite (value_within_mono k fuel) in Hprev by (done || lia). done.
Qed.

(** A run that returns a number from one set returns it from another set
    as well, unless that set holds an entry that evaluates to a number
    within a smaller depth. *)
Lemma evalTokens_other_set fuel :
  (∀ c st0 n st0' st,
     eval fuel c st0 = Done (Value n) st0' →
     (∃ st', eval fuel c st = Done (Value n) st') ∨
     (∃ u k, u ∈ visitedCells st ∖ {[c]} ∧ (k < S fuel)%nat ∧ within k u = true)) →
  ∀ tokens sum st0 n st0' st,
    loop (eval fuel) tokens sum st0 = Done (Value n) st0' →
    (∃ st', loop (eval fuel) tokens sum st = Done (Value n) st') ∨
    (∃ u k, u ∈ visitedCells st ∧ (k < S fuel)%nat ∧ within k u = true).
Proof.
  intros Hrec tokens.
  induction tokens as [|token rest IH]; intros sum st0 n st0' st Hrun;
    cbn [evalTokens] in *.
  { injection Hrun as <- _. eauto. }
  branches Hrun; try done; [|eauto].
  destruct (eval fuel referencedCell _) as [[v|] st3'|e st3'|] eqn:Hcall0;
    try done.
  destruct (decide (referencedCell ∈ visitedCells st)) as [Hin|Hout].
  { right. exists referencedCell, fuel.
    split; [done|]. split; [lia|]. by eapply value_within_run. }
  rewrite bool_decide_eq_false_2 by done.
  destruct (Hrec referencedCell _ _ _
              (emit (Recurse token referencedCell
                       (visitedCells (visited_add referencedCell st)))
                 (visited_add referencedCell st)) Hcall0)
    as [[st3 Hcall]|(u & k & Hu & Hk & Hw)].
  - rewrite Hcall. apply evaluateCell_frame in Hcall. cbn in Hcall.
    destruct (IH _ _ _ _ (visited_delete referencedCell st3) Hrun)
      as [?|(u & k & Hu & Hk & Hw)]; [by left|].
    right. exists u, k. split; [|done]. cbn in Hu.
    by rewrite Hcall, add_delete_fresh in Hu.
  - right. exists u, k. split; [|done]. cbn in Hu. set_solver.
Qed.

Lemma evaluateCell_other_set fuel c st0 n st0' st :
  eval fuel c st0 = Done (Value n) st0' →
  (∃ st', eval fuel c st = Done (Value n) st') ∨
  (∃ u k, u ∈ visitedCells st ∧ (k < fuel)%nat ∧ within k u = true).
Proof.
  revert c st0 n st0' st.
  induction fuel as [fuel IH] using lt_wf_ind. intros c st0 n st0' st Hrun.
  destruct fuel as [|fuel]; [done|].
  destruct c as [|s]; [done|]. cbn [evaluateCell] in *.
  eapply evalTokens_other_set; [|exact Hrun].
  clear s st0 n st0' st Hrun. intros c st0 n st0' st Hrun.
  pose proof (value_within_run _ _ _ _ _ Hrun) as Hw.
  destruct (rank_exists _ _ Hw) as (r & Hr & Hrank & Hmin).
  destruct (value_within_fresh _ _ Hrank) as (n' & st1 & Hfresh).
  destruct (IH r ltac:(lia) c fresh n' st1 st Hfresh)
    as [[st' Hst']|(u & k & Hu & Hk & Hwu)].
  - left. exists st'.
    rewrite (evaluateCell_mono _ _ _ r fuel), Hst'; [|done|by rewrite Hst'].
    by rewrite (evaluateCell_same_value _ _ _ _ _ _ _ _ _ _ _ _ Hrun Hfresh).
  - right. exists u, k. split; [|split; [lia|done]].
    apply elem_of_difference. split; [done|].
    intros ->%elem_of_singleton. rewrite Hmin in Hwu; done.
Qed.

(** Entries that never evaluate to a number do not change a result that
    is a number. *)
Lemma evaluateCell_failing_entries fuel c st0 n st0' st :
  only_failing initialCells numRows numCols (visitedCells st) →
  eval fuel c st0 = Done (Value n) st0' →
  ∃ st', eval fuel c st = Done (Value n) st'.
Proof.
  intros Hfail Hrun.
  destruct (evaluateCell_other_set _ _ _ _ _ st Hrun)
    as [?|(u & k & Hu & _ & Hw)]; [done|].
  apply value_within_fresh in Hw as (m & st1 & Hw).
  destruct (Hfail u Hu). by exists k, fresh, m, st1.
Qed.

(** An entry that a failed run has added and that would evaluate to a
    number points to an entry of the set the run started from that
    evaluates to a number within a smaller depth. *)
Lemma evalTokens_left_entries fuel :
  (∀ c st st', eval fuel c st = Done ERR st' →
     ∀ w r, w ∈ visitedCells st' → w ∉ visitedCells st →
            rank initialCells numRows numCols r w →
            ∃ u k, u ∈ visitedCells st ∧ (k < r)%nat ∧ within k u = true) →
  ∀ tokens sum st st',
    loop (eval fuel) tokens sum st = Done ERR st' →
    ∀ w r, w ∈ visitedCells st' → w ∉ visitedCells st →
           rank initialCells numRows numCols r w →
           ∃ u k, u ∈ visitedCells st ∧ (k < r)%nat ∧ within k u = true.
Proof.
  intros Hrec tokens.
  induction tokens as [|token rest IH]; intros sum st st' Hrun w r Hw Hnew Hrank;
    cbn [evalTokens] in Hrun; [done|].
  branches Hrun; try done;
    try (injection Hrun as <-; cbn in Hw; by destruct Hnew); [|eauto].
  destruct (eval fuel referencedCell _) as [[v|] st3|e st3|] eqn:Hcall; try done.
  - apply evaluateCell_frame in Hcall. cbn in Hcall.
    eapply (IH _ (visited_delete referencedCell st3)) in Hrun
      as (u & k & Hu & Hk); [| exact Hw | | exact Hrank].
    + exists u, k. split; [|done]. cbn in Hu.
      by rewrite Hcall, add_delete_fresh in Hu.
    + cbn. by rewrite Hcall, add_delete_fresh.
  - injection Hrun as <-.
    assert (∀ r', rank initialCells numRows numCols r' referencedCell →
              ∃ u k, u ∈ visitedCells st ∧ (k < r')%nat ∧ within k u = true)
      as Hself.
    { intros r' [Hr' Hmin].
      destruct (value_within_fresh _ _ Hr') as (m & st1 & Hfresh).
      destruct (evaluateCell_other_set _ _ _ _ _
                  (emit (Recurse token referencedCell
                           (visitedCells (visited_add referencedCell st)))
                     (visited_add referencedCell st)) Hfresh)
        as [[st4 Hst4]|(u & k & Hu & Hk & Hwu)].
      - assert (Done (Value m) st4 = Done ERR st3) as Heq; [|done].
        eapply evaluateCell_fuel_agree; [exact Hst4|exact Hcall|done..].
      - cbn in Hu. apply elem_of_union in Hu as [->%elem_of_singleton|Hu].
        + rewrite Hmin in Hwu; done.
        + by exists u, k. }
    destruct (decide (w = referencedCell)) as [->|Hne]; [by apply Hself|].
    destruct (Hrec _ _ _ Hcall w r Hw ltac:(cbn; set_solver) Hrank)
      as (u & k & Hu & Hk & Hwu).
    cbn in Hu. apply elem_of_union in Hu as [->%elem_of_singleton|Hu];
      [|by exists u, k].
    destruct (rank_exists _ _ Hwu) as (r' & Hr' & Hrank').
    destruct (Hself r' Hrank') as (u & k' & Hu & Hk' & Hwu').
    exists u, k'. split; [done|]. split; [lia|done].
Qed.

Lemma evaluateCell_left_entries fuel c st st' w r :
  eval fuel c st = Done ERR st' →
  w ∈ visitedCells st' → w ∉ visitedCells st →
  rank initialCells numRows numCols r w →
  ∃ u k, u ∈ visitedCells st ∧ (k < r)%nat ∧ within k u = true.
Proof.
  revert c st st' w r.
  induction fuel as [|fuel IH]; intros c st st' w r Hrun Hw Hnew Hrank; [done|].
  destruct c as [|s]; cbn [evaluateCell] in Hrun.
  - injection Hrun as <-. done.
  - eapply evalTokens_left_entries; eauto.
Qed.

Lemma evaluateCell_keeps_only_failing fuel c st r st' :
  only_failing initialCells numRows numCols (visitedCells st) →
  eval fuel c st = Done r st' →
  only_failing initialCells numRows numCols (visitedCells st').
Proof.
  intros Hfail Hrun. destruct r as [n|].
  - apply evaluateCell_frame in Hrun. by rewrite Hrun.
  - intros w Hw (f & st0 & n & st0' & Hval).
    destruct (decide (w ∈ visitedCells st)) as [Hold|Hnew].
    { apply (Hfail w Hold). by exists f, st0, n, st0'. }
    apply value_within_run in Hval.
    destruct (rank_exists _ _ Hval) as (r & _ & Hrank).
    destruct (evaluateCell_left_entries _ _ _ _ _ _ Hrun Hw Hnew Hrank)
      as (u & k & Hu & _ & Hwu).
    apply value_within_fresh in Hwu as (m & st1 & Hwu).
    apply (Hfail u Hu). by exists k, fresh, m, st1.
Qed.

(** From a set of entries that never evaluate to a number, a cell
    evaluates to what it evaluates to from the empty set. *)
Lemma evaluateCell_as_fresh fuel c st r st' :
  has_rows initialCells numRows →
  only_failing initialCells numRows numCols (visitedCells st) →
  eval fuel c st = Done r st' →
  ∃ st'', ∀ k, eval (driver_fuel initialCells + k) c fresh = Done r st''.
Proof.
  intros Hrows Hfail Hrun.
  destruct (eval (driver_fuel initialCells) c fresh) as [r0 st0|e st0|] eqn:Hfresh.
  - exists st0. intros k. rewrite evaluateCell_driver_fuel by lia.
    rewrite Hfresh. f_equal. destruct r as [n|].
    + destruct (evaluateCell_smaller_set _ _ _ _ _ fresh st n st'
                  (empty_subseteq _) Hrun) as [st1 Hrun1].
      assert (Done r0 st0 = Done (Value n) st1) as Heq; [|by injection Heq].
      eapply evaluateCell_fuel_agree; [exact Hfresh|exact Hrun1|done..].
    + destruct r0 as [n0|]; [|done].
      destruct (evaluateCell_failing_entries _ _ _ _ _ st Hfail Hfresh)
        as [st1 Hrun1].
      assert (Done ERR st' = Done (Value n0) st1) as Heq; [|done].
      eapply evaluateCell_fuel_agree; [exact Hrun|exact Hrun1|done..].
  - by apply evaluateCell_no_throw in Hfresh.
  - apply evaluateCell_enough in Hfresh; [done|]. unfold driver_fuel.
    apply Nat.lt_succ_r, subseteq_size, subseteq_difference_l. done.
Qed.

End LeftEntries.


(** * The grid builder *)


Lemma content_set_cell (cells : list (list string)) row col v p :
  content (set_cell row col v cells) p =
    if decide (p = (row, col) ∧ is_Some (content cells p))
    then Some v else content cells p.
Proof.
  destruct p as [r c]. unfold set_cell, content. cbn.
  destruct (cells !! row) as [rc|] eqn:Hrow.
  - destruct (decide (r = row)) as [->|Hr].
    + rewrite list_lookup_insert_eq by by eapply lookup_lt_Some.
      rewrite Hrow. cbn.
      destruct (decide (c = col)) as [->|Hc].
      * destruct (rc !! col) eqn:Hcol.
        -- rewrite list_lookup_insert_eq by by eapply lookup_lt_Some.
           rewrite decide_True; [done|]. split; [done|by eexists].
        -- rewrite list_insert_ge by by apply lookup_ge_None.
           rewrite Hcol. rewrite decide_False; [done|].
           intros [_ [? ?]]. done.
      * rewrite list_lookup_insert_ne by done.
        rewrite decide_False; [done|]. intros [[= ->] _]. done.
    + rewrite list_lookup_insert_ne by done.
      rewrite decide_False; [done|]. intros [[= ->] _]. done.
  - case_decide as H; [|done]. destruct H as [[= -> ->] [? H]].
    rewrite Hrow in H. done.
Qed.

Lemma content_populateCols values row k col (cells : list (list string)) p :
  content (populateCols values row k col cells) p =
    if decide (p.1 = row ∧ (col ≤ p.2 < col + k)%nat ∧
               is_Some (content cells p) ∧ is_Some (values !! p.2))
    then normalize <$> values !! p.2
    else content cells p.
Proof.
  revert col cells.
  induction k as [|k IH]; intros col cells; cbn [populateCols].
  { case_decide as H; [destruct H as (_ & ? & _); lia|done]. }
  rewrite IH. destruct p as [r c]. cbn [fst snd].
  destruct (decide (c = col)) as [->|Hne];
    destruct (values !! col) as [v|] eqn:Hcol; rewrite ?content_set_cell;
    repeat case_decide; destruct_and?; simplify_eq; rewrite ?Hcol; try done;
    solve [exfalso; lia | contradict_decide].
Qed.

(** The rows of the grid keep their lengths. *)
Lemma row_lengths_set_cell row col v (cells : list (list string)) :
  length <$> set_cell row col v cells = length <$> cells.
Proof.
  unfold set_cell. destruct (cells !! row) as [rc|] eqn:Hrow; [|done].
  rewrite list_fmap_insert, length_insert.
  apply list_insert_id. by rewrite list_lookup_fmap, Hrow.
Qed.

Lemma row_lengths_populateCols values row k col (cells : list (list string)) :
  length <$> populateCols values row k col cells = length <$> cells.
Proof.
  revert col cells.
  induction k as [|k IH]; intros col cells; cbn; [done|].
  rewrite IH. destruct (values !! col); [apply row_lengths_set_cell|done].
Qed.

Lemma populateRows_spec (rows : list string) numCols k row
    (cells populatedCells : list (list string)) :
  populateRows rows numCols k row cells = Some populatedCells →
  length <$> populatedCells = length <$> cells ∧
  ∀ p, content populatedCells p =
         if decide ((row ≤ p.1 < row + k)%nat ∧ (p.2 < numCols)%nat ∧
                    is_Some (content cells p) ∧
                    is_Some (rows !! p.1 ≫= λ line, split "," line !! p.2))
         then Some (stored_text rows p.1 p.2)
         else content cells p.
Proof.
  revert row cells.
  induction k as [|k IH]; intros row cells Hrun; cbn [populateRows] in Hrun.
  { injection Hrun as <-. split; [done|]. intros p.
    case_decide as H; [destruct H as (? & _); lia|done]. }
  destruct (rows !! row) as [line|] eqn:Hline; [|done].
  apply IH in Hrun as [Hlen Hcontent].
  rewrite row_lengths_populateCols in Hlen. split; [done|].
  intros [r c]. rewrite Hcontent. cbn [fst snd].
  rewrite !content_populateCols. cbn [fst snd]. unfold stored_text.
  destruct (decide (r = row)) as [->|Hne]; rewrite ?Hline; cbn;
    repeat case_decide; destruct_and?; simplify_eq; try done;
    try solve [exfalso; lia | contradict_decide].
  match goal with H : is_Some (split "," line !! c) |- _ =>
    destruct H as [v ->] end.
  done.
Qed.

Lemma content_replicate (numRows numCols : nat) (v : string) p :
  content (replicate numRows (replicate numCols v)) p =
    if decide ((p.1 < numRows)%nat ∧ (p.2 < numCols)%nat) then Some v else None.
Proof.
  unfold content. destruct p as [r c]. cbn.
  destruct (decide (r < numRows)%nat) as [Hr|Hr].
  - rewrite lookup_replicate_2 by done. cbn.
    destruct (decide (c < numCols)%nat) as [Hc|Hc].
    + rewrite lookup_replicate_2 by done. by rewrite decide_True.
    + rewrite decide_False by lia. apply lookup_replicate_None. lia.
  - rewrite decide_False by lia.
    assert (replicate numRows (replicate numCols v) !! r = None) as ->; [|done].
    apply lookup_replicate_None. lia.
Qed.

(** The grid of [initializeCells] and [populateCells]: rectangular, and
    each cell holds the normalized field of its row, or the empty string
    if the row is shorter. *)
Lemma built_grid (rows : list string) (numRows numCols : nat)
    (initialCells : list (list string)) :
  initializeCells (Z.of_nat numRows) (Z.of_nat numCols) = inr initialCells →
  (numRows ≤ length rows)%nat →
  ∃ populatedCells,
    populateCells rows numRows numCols initialCells = Some populatedCells ∧
    length populatedCells = numRows ∧
    Forall (λ cells, length cells = numCols) populatedCells ∧
    ∀ r c, (r < numRows)%nat → (c < numCols)%nat →
           content populatedCells (r, c) = Some (stored_text rows r c).
Proof.
  unfold initializeCells. intros Hinit Hrows.
  destruct (_ || _) eqn:Hdims; [done|]. injection Hinit as <-.
  rewrite !Nat2Z.id.
  destruct (populateRows_Some rows numCols numRows O
              (replicate numRows (replicate numCols ""))) as (g & Hg & Hlen);
    [done|].
  exists g. split; [done|].
  rewrite length_replicate in Hlen. split; [done|].
  apply populateRows_spec in Hg as [Hlens Hcontent].
  split.
  - apply Forall_forall. intros cells Hin.
    apply (list_elem_of_fmap_2 length) in Hin. rewrite Hlens in Hin.
    rewrite fmap_replicate, length_replicate in Hin.
    by apply elem_of_replicate in Hin as [-> _].
  - intros r c Hr Hc. rewrite Hcontent, content_replicate. cbn [fst snd].
    rewrite (decide_True (P := (r < numRows)%nat ∧ _)) by done.
    case_decide as H; [done|]. f_equal.
    unfold stored_text.
    destruct (rows !! r) as [line|] eqn:Hline; [|done].
    destruct (split "," line !! c) eqn:Hv; [|done].
    destruct H. cbn. rewrite Hv. side.
Qed.


(** * Runs of the driver on every input *)

Lemma rows_of_nonempty csvData :
  ∃ row0 rest, rows_of csvData = row0 :: rest.
Proof.
  pose proof (split_from_nonempty CRLF O (trim csvData)) as H.
  unfold rows_of, split. destruct (split_from _ _ _); [cbn in H; lia|eauto].
Qed.

Lemma width_positive csvData : (1 ≤ width csvData)%nat.
Proof. apply split_from_nonempty. Qed.

(** The grid of a run: what [initializeCells] and [populateCells] make of
    the input, with one row per input row. *)
Lemma grid_of_built csvData :
  initializeCells (Z.of_nat (length (rows_of csvData))) (Z.of_nat (width csvData)) =
    inr (replicate (length (rows_of csvData)) (replicate (width csvData) "")) ∧
  populateCells (rows_of csvData) (length (rows_of csvData)) (width csvData)
    (replicate (length (rows_of csvData)) (replicate (width csvData) "")) =
    Some (grid_of csvData) ∧
  length (grid_of csvData) = length (rows_of csvData) ∧
  Forall (λ cells, length cells = width csvData) (grid_of csvData) ∧
  ∀ r c, (r < length (rows_of csvData))%nat → (c < width csvData)%nat →
         content (grid_of csvData) (r, c) = Some (stored_text (rows_of csvData) r c).
Proof.
  assert (initializeCells (Z.of_nat (length (rows_of csvData)))
            (Z.of_nat (width csvData)) =
          inr (replicate (length (rows_of csvData)) (replicate (width csvData) "")))
    as Hinit.
  { apply initializeCells_positive; [|apply width_positive].
    destruct (rows_of_nonempty csvData) as (row0 & rest & ->). cbn. lia. }
  split; [done|].
  destruct (built_grid (rows_of csvData) _ _ _ Hinit ltac:(done))
    as (g & Hg & Hrest).
  unfold grid_of. cbn zeta. rewrite Hinit, Hg. done.
Qed.

Lemma grid_of_has_rows csvData :
  has_rows (grid_of csvData) (Z.of_nat (length (rows_of csvData))).
Proof.
  unfold has_rows. destruct (grid_of_built csvData) as (_ & _ & -> & _). lia.
Qed.

(** [processCSV] is its row loop over the built grid, followed by the one
    [console.log]. *)
Lemma processCSV_rowLoop fuel csvData :
  processCSV fuel csvData =
    match rowLoop fuel (grid_of csvData) (length (rows_of csvData))
            (width csvData) (rows_of csvData) (length (rows_of csvData))
            O [] fresh with
    | Done result st => Done tt (console_log (join LF result) st)
    | Thrown e st => Thrown e st
    | OutOfFuel => OutOfFuel
    end.
Proof.
  destruct (grid_of_built csvData) as (Hinit & Hpop & _).
  destruct (rows_of_nonempty csvData) as (row0 & rest & Hrows).
  unfold processCSV. fold (rows_of csvData).
  unfold width in *. rewrite Hrows in *. cbn [hd] in *.
  by rewrite Hinit, Hpop.
Qed.

Section DriverResults.

Variable fuel : nat.
Variable populatedCells : list (list string).
Variables numRows numCols : nat.

Hypothesis enough_rows : has_rows populatedCells (Z.of_nat numRows).

Local Abbreviation cols := (colLoop fuel populatedCells numRows numCols).
Local Abbreviation rows_loop := (rowLoop fuel populatedCells numRows numCols).
Local Abbreviation eval :=
  (evaluateCell populatedCells (Z.of_nat numRows) (Z.of_nat numCols)).
Local Abbreviation failing :=
  (only_failing populatedCells (Z.of_nat numRows) (Z.of_nat numCols)).

Lemma colLoop_no_throw values row k col evaluatedValues st e st' :
  (col + k ≤ length values)%nat →
  cols values row k col evaluatedValues st ≠ Thrown e st'.
Proof.
  revert col evaluatedValues st.
  induction k as [|k IH]; intros col evaluatedValues st Hk; cbn [colLoop];
    [done|].
  destruct (lookup_lt_is_Some_2 values col) as [v ->]; [lia|].
  destruct (eval _ _ _) as [r st2|e2 st2|] eqn:Hrun; [| |done].
  - apply IH. lia.
  - by apply evaluateCell_no_throw in Hrun.
Qed.

(** The row loop throws nothing but the inconsistent-columns error. *)
Lemma rowLoop_throws (rows : list string) k row result st e st' :
  (row + k ≤ length rows)%nat →
  rows_loop rows k row result st = Thrown e st' →
  e = Error msg_inconsistent ∧
  ∃ i line, rows !! i = Some line ∧ length (split "," line) ≠ numCols.
Proof.
  revert row result st.
  induction k as [|k IH]; intros row result st Hk Hrun; cbn [rowLoop] in Hrun;
    [done|].
  destruct (lookup_lt_is_Some_2 rows row) as [line Hline]; [lia|].
  rewrite Hline in Hrun. case_bool_decide as Hlen.
  - injection Hrun as <- _. eauto.
  - destruct (cols _ _ _ _ _ _) as [rs st1|e1 st1|] eqn:Hcols; [| |done].
    + eapply IH; [|exact Hrun]. lia.
    + apply colLoop_no_throw in Hcols; [done|]. lia.
Qed.

Hypothesis enough_fuel : (driver_fuel populatedCells ≤ fuel)%nat.

(** Started from a set of failing entries only, the column loop returns
    for every cell what the cell evaluates to from a fresh set. *)
Lemma colLoop_results seen todo row evaluatedValues st :
  failing (visitedCells st) →
  ∃ st',
    cols (seen ++ todo)%list row (length todo) (length seen) evaluatedValues st =
      Done (evaluatedValues ++
            map (λ v, evaluate_fresh populatedCells (Z.of_nat numRows)
                        (Z.of_nat numCols) (normalize v)) todo)%list st' ∧
    failing (visitedCells st').
Proof.
  revert seen evaluatedValues st.
  induction todo as [|v todo IH]; intros seen evaluatedValues st Hfail;
    cbn [colLoop length map].
  { exists st. by rewrite app_nil_r. }
  rewrite list_lookup_middle by done.
  set (st1 := emit (Invoke row (length seen) (Text (normalize v))
                      (visitedCells st)) st).
  assert (failing (visitedCells st1)) as Hfail1 by exact Hfail.
  destruct (evaluateCell_returns fuel populatedCells numRows numCols
              enough_rows enough_fuel (Text (normalize v)) st1)
    as (r & st2 & Hrun).
  rewrite Hrun.
  destruct (evaluateCell_as_fresh _ _ _ _ _ _ _ _ enough_rows Hfail1 Hrun)
    as [st0 Hfresh].
  pose proof (evaluateCell_keeps_only_failing _ _ _ _ _ _ _ _ Hfail1 Hrun)
    as Hfail2.
  destruct (IH (seen ++ [v])%list (evaluatedValues ++ [r])%list st2 Hfail2)
    as (st' & Hloop & Hfail').
  rewrite <- app_assoc, length_app in Hloop. cbn in Hloop.
  rewrite Nat.add_1_r in Hloop.
  exists st'. split; [|done]. rewrite Hloop. f_equal.
  rewrite <- app_assoc. cbn. do 2 f_equal.
  unfold evaluate_fresh. specialize (Hfresh O).
  rewrite Nat.add_0_r in Hfresh. by rewrite Hfresh.
Qed.

Lemma rowLoop_results seen todo result st :
  Forall (λ line, length (split "," line) = numCols) todo →
  failing (visitedCells st) →
  ∃ st',
    rows_loop (seen ++ todo)%list (length todo) (length seen) result st =
      Done (result ++ map (expected_line populatedCells numRows numCols) todo)%list st' ∧
    invoked (trace st') =
      (invoked (trace st) ++ cells_of_rows (length seen) (length todo) numCols)%list ∧
    printed (trace st') = printed (trace st) ∧
    failing (visitedCells st').
Proof.
  intros Hall. revert seen result st.
  induction Hall as [|line todo Hline _ IH]; intros seen result st Hfail;
    cbn [rowLoop length map].
  { exists st. by rewrite !app_nil_r. }
  rewrite list_lookup_middle by done.
  rewrite bool_decide_eq_false_2 by (intros H; by apply H).
  destruct (colLoop_results [] (split "," line) (length seen) [] st Hfail)
    as (st1 & Hcols & Hfail1).
  cbn [app length] in Hcols. rewrite Hline in Hcols.
  destruct (colLoop_run fuel populatedCells numRows numCols enough_rows
              enough_fuel (split "," line) (length seen) numCols O [] st)
    as (rs & st1' & Hcols' & Hinv & Hpr); [lia|].
  rewrite Hcols in Hcols'. injection Hcols' as <- <-.
  rewrite Hcols.
  destruct (IH (seen ++ [line])%list
              (result ++ [join "," (map result_toString
                 (map (λ v, evaluate_fresh populatedCells (Z.of_nat numRows)
                              (Z.of_nat numCols) (normalize v))
                    (split "," line)))])%list st1 Hfail1)
    as (st' & Hloop & Hinv' & Hpr' & Hfail').
  rewrite <- app_assoc in Hloop. rewrite length_app in Hloop, Hinv'.
  cbn in Hloop, Hinv'. rewrite Nat.add_1_r in Hloop, Hinv'.
  exists st'. split; [|split; [|split]]; [|..|done].
  - rewrite Hloop. f_equal. by rewrite <- app_assoc.
  - rewrite Hinv', Hinv, cells_of_rows_S. by rewrite <- app_assoc.
  - by rewrite Hpr', Hpr.
Qed.

End DriverResults.

Lemma only_failing_empty initialCells numRows numCols :
  only_failing initialCells numRows numCols ∅.
Proof. intros c Hc. by apply not_elem_of_empty in Hc. Qed.

Lemma processCSV_consistent csvData :
  Forall (λ line, length (split "," line) = width csvData) (rows_of csvData) →
  ∃ st,
    (∀ k, processCSV (driver_fuel (grid_of csvData) + k) csvData = Done tt st) ∧
    printed (trace st) = [expected_output csvData] ∧
    last (trace st) = Some (ConsoleLog (expected_output csvData)) ∧
    invoked (trace st) =
      cells_of_rows O (length (rows_of csvData)) (width csvData).
Proof.
  intros Hall.
  destruct (rowLoop_results (driver_fuel (grid_of csvData)) (grid_of csvData)
              (length (rows_of csvData)) (width csvData)
              (grid_of_has_rows csvData) ltac:(done)
              [] (rows_of csvData) [] fresh Hall
              (only_failing_empty _ _ _))
    as (st & Hloop & Hinv & Hpr & _).
  cbn [app length] in Hloop, Hinv.
  exists (console_log (join LF (map (expected_line (grid_of csvData)
            (length (rows_of csvData)) (width csvData)) (rows_of csvData))) st).
  split; [|split; [|split]].
  - intros k. rewrite processCSV_rowLoop, rowLoop_fuel by lia.
    by rewrite Hloop.
  - cbn. rewrite printed_app, Hpr. done.
  - cbn. apply last_snoc.
  - cbn. rewrite invoked_app, Hinv. cbn. by rewrite app_nil_r.
Qed.

Lemma processCSV_throws fuel csvData e st :
  processCSV fuel csvData = Thrown e st →
  e = Error msg_inconsistent ∧
  ∃ i line, rows_of csvData !! i = Some line ∧
            length (split "," line) ≠ width csvData.
Proof.
  rewrite processCSV_rowLoop. intros Hrun.
  destruct (rowLoop _ _ _ _ _ _ _ _ _) as [result st1|e1 st1|] eqn:Hloop;
    [done| |done].
  injection Hrun as -> ->.
  eapply rowLoop_throws; [apply grid_of_has_rows| |exact Hloop]. done.
Qed.

Lemma processCSV_blank fuel csvData :
  trim csvData = "" →
  processCSV (S fuel) csvData =
    Done tt (mkState ∅ [Invoke 0 0 (Text "") ∅;
                        ConsoleError msg_empty_token;
                        ConsoleLog "#ERR"]).
Proof. intros H. unfold processCSV. rewrite H. reflexivity. Qed.


(** * Normalized cell texts *)

Lemma trimEnd_trimEnd s : trimEnd (trimEnd s) = trimEnd s.
Proof.
  induction s as [|c r IH]; [done|]. cbn [trimEnd].
  destruct (trimEnd r) as [|d t] eqn:Hr.
  - destruct (is_space c) eqn:Hc; [done|]. cbn. by rewrite Hc.
  - change (trimEnd (String c (String d t))) with
      (match trimEnd (String d t) with
       | EmptyString => if is_space c then "" else String c ""
       | t' => String c t'
       end).
    by rewrite IH.
Qed.

Lemma trimEnd_tail c r : trimEnd (String c r) = String c r → trimEnd r = r.
Proof.
  cbn [trimEnd]. destruct (trimEnd r) as [|d t] eqn:Hr.
  - destruct (is_space c); [done|]. by intros [= <-].
  - by intros [= <-].
Qed.

Lemma trimEnd_space_tail c r :
  trimEnd (String c r) = String c r → is_space c = true → r ≠ "".
Proof. cbn [trimEnd]. intros H Hc ->. cbn in H. by rewrite Hc in H. Qed.

Lemma trimStart_head s :
  match trimStart s with
  | String c _ => is_space c = false
  | EmptyString => True
  end.
Proof.
  induction s as [|c r IH]; [done|]. cbn [trimStart].
  by destruct (is_space c) eqn:Hc.
Qed.

Lemma trimEnd_head c r :
  is_space c = false → ∃ t, trimEnd (String c r) = String c t.
Proof.
  intros Hc. cbn [trimEnd]. rewrite Hc. destruct (trimEnd r); eauto.
Qed.

(** [trim] leaves nothing to trim. *)
Lemma trim_shape v :
  trimEnd (trim v) = trim v ∧
  match trim v with
  | String c _ => is_space c = false
  | EmptyString => True
  end.
Proof.
  unfold trim. split; [apply trimEnd_trimEnd|].
  pose proof (trimStart_head v) as H.
  destruct (trimStart v) as [|c r]; [done|].
  by destruct (trimEnd_head c r H) as [t ->].
Qed.

Lemma collapse_normalized u b :
  trimEnd u = u → u ≠ "" ∨ b = false →
  normalized_from b (collapse b u) = true.
Proof.
  revert b. induction u as [|c r IH]; intros b Hend Hb; cbn [collapse].
  { destruct Hb as [?| ->]; done. }
  pose proof (trimEnd_tail _ _ Hend) as Hr.
  destruct (is_space c) eqn:Hc.
  - pose proof (trimEnd_space_tail _ _ Hend Hc) as Hne.
    destruct b; cbn [normalized_from]; [by apply IH; auto|].
    change (is_space " ") with true. cbn. apply IH; auto.
  - cbn [normalized_from]. rewrite Hc. apply IH; auto.
Qed.

Lemma normalize_normalized v :
  trim v ≠ "" → normalized_from true (normalize v) = true.
Proof.
  intros Hne. unfold normalize, replace_spaces.
  destruct (trim_shape v) as [Hend Hhead].
  destruct (trim v) as [|c r]; [done|].
  cbn [collapse]. rewrite Hhead. cbn [normalized_from]. rewrite Hhead.
  apply collapse_normalized; [by eapply trimEnd_tail|by right].
Qed.

Lemma normalize_blank v : trim v = "" → normalize v = "".
Proof. unfold normalize. by intros ->. Qed.

Lemma normalized_trimEnd b s : normalized_from b s = true → trimEnd s = s.
Proof.
  revert b. induction s as [|c r IH]; intros b H; [done|].
  cbn [normalized_from] in H. cbn [trimEnd].
  destruct (is_space c) eqn:Hc.
  - apply andb_prop in H as [_ H]. rewrite (IH _ H).
    destruct r; [done|done].
  - rewrite (IH _ H). by destruct r.
Qed.

Lemma normalized_collapse b s : normalized_from b s = true → collapse b s = s.
Proof.
  revert b. induction s as [|c r IH]; intros b H; [done|].
  cbn [normalized_from] in H. cbn [collapse].
  destruct (is_space c) eqn:Hc.
  - apply andb_prop in H as [H Hr]. apply andb_prop in H as [Hsp Hb].
    destruct b; [done|]. apply Ascii.eqb_eq in Hsp as ->.
    by rewrite (IH _ Hr).
  - by rewrite (IH _ H).
Qed.

Lemma normalized_fixed s :
  normalized_from true s = true → normalize s = s ∧ trim s ≠ "".
Proof.
  intros H. unfold normalize, replace_spaces, trim.
  destruct s as [|c r]; [done|]. cbn [normalized_from] in H.
  destruct (is_space c) eqn:Hc.
  { by rewrite andb_false_r in H. }
  cbn [trimStart]. rewrite Hc.
  assert (trimEnd (String c r) = String c r) as ->.
  { apply (normalized_trimEnd true). cbn. by rewrite Hc. }
  split; [|done]. cbn [collapse]. rewrite Hc.
  by rewrite (normalized_collapse _ _ H).
Qed.

(** [split] on the space, one character at a time. *)
Lemma split_space_cons c r :
  split " " (String c r) =
    if (c =? " ")%char then "" :: split " " r
    else match split " " r with
         | t :: ts => String c t :: ts
         | [] => [String c ""]
         end.
Proof.
  unfold split. cbn [split_from String.prefix].
  destruct (Ascii.eqb_spec c " ") as [->|Hne].
  - destruct (ascii_dec " " " "); [by destruct r|done].
  - destruct (ascii_dec " " c) as [<-|_]; done.
Qed.

Lemma normalized_words b s t ts :
  normalized_from b s = true →
  split " " s = t :: ts →
  (b = true → t ≠ "") ∧ (t = "" ∨ word t) ∧ Forall word ts.
Proof.
  revert b t ts. induction s as [|c r IH]; intros b t ts H Hsplit.
  { injection Hsplit as <- <-. destruct b; [done|]. auto. }
  rewrite split_space_cons in Hsplit. cbn [normalized_from] in H.
  destruct (is_space c) eqn:Hc.
  - apply andb_prop in H as [H Hr]. apply andb_prop in H as [Hsp Hb].
    rewrite Hsp in Hsplit. injection Hsplit as <- <-.
    destruct b; [done|]. split; [done|]. split; [by left|].
    destruct (split " " r) as [|t' ts'] eqn:Hr'.
    { pose proof (split_from_nonempty " " O r) as Hlen.
      unfold split in Hr'. rewrite Hr' in Hlen. cbn in Hlen. lia. }
    destruct (IH true t' ts' Hr eq_refl) as (Hne & [->|Hw] & Hall).
    + by destruct Hne.
    + by constructor.
  - assert ((c =? " ")%char = false) as Hsp.
    { destruct (Ascii.eqb_spec c " ") as [->|]; done. }
    rewrite Hsp in Hsplit.
    destruct (split " " r) as [|t' ts'] eqn:Hr'.
    { pose proof (split_from_nonempty " " O r) as Hlen.
      unfold split in Hr'. rewrite Hr' in Hlen. cbn in Hlen. lia. }
    injection Hsplit as <- <-.
    destruct (IH false t' ts' H eq_refl) as (_ & Ht' & Hall).
    split; [done|]. split; [|done]. right. split; [done|].
    cbn. rewrite Hc. cbn. destruct Ht' as [->|[_ ?]]; done.
Qed.

Lemma word_trim token : word token → trim token = token.
Proof.
  intros [Hne Hall]. unfold trim.
  assert (∀ s, all_chars (λ c, negb (is_space c)) s = true → trimEnd s = s)
    as Hend.
  { induction s as [|c r IH]; [done|]. cbn. intros [Hc Hr]%andb_prop.
    rewrite (IH Hr). apply negb_true_iff in Hc. rewrite Hc. by destruct r. }
  destruct token as [|c r]; [done|]. cbn in Hall.
  apply andb_prop in Hall as [Hc Hr]. cbn [trimStart].
  apply negb_true_iff in Hc. rewrite Hc.
  apply Hend. cbn. by rewrite Hc, Hr.
Qed.

(** The tokens of a stored text. *)
Lemma normalize_tokens v :
  trim v ≠ "" → Forall word (split " " (normalize v)).
Proof.
  intros Hne. apply normalize_normalized in Hne.
  destruct (split " " (normalize v)) as [|t ts] eqn:Hsplit; [done|].
  destruct (normalized_words _ _ _ _ Hne Hsplit) as (Ht & [->|Hw] & Hall).
  - by destruct Ht.
  - by constructor.
Qed.


(** * References and their range *)

Lemma is_upper_not c k :
  is_upper c = true → is_upper k = false → (c =? k)%char = false.
Proof.
  intros Hc Hk. destruct (Ascii.eqb_spec c k); [congruence|done].
Qed.

Lemma is_upper_not_digit c : is_upper c = true → is_digit c = false.
Proof. unfold is_digit, is_upper, between. lia. Qed.

Lemma digit_value_none c : is_digit c = false → digit_value 10 c = None.
Proof. unfold digit_value. by intros ->. Qed.

(** [parseInt] of a string that starts with a capital letter. *)
Lemma parseInt_upper c r : is_upper c = true → parseInt (String c r) = NaN.
Proof.
  intros Hc. unfold parseInt. cbn [trimStart].
  rewrite is_upper_not_space by done. unfold strip_sign.
  rewrite !(is_upper_not c) by done.
  assert (strip_hex_prefix (String c r) = (10, String c r)) as ->.
  { unfold strip_hex_prefix. destruct r; [done|].
    by rewrite (is_upper_not c "0"). }
  cbn [digits_prefix]. by rewrite digit_value_none by by apply is_upper_not_digit.
Qed.

(** [parseInt] of a string that starts with a digit which no "x" follows. *)
Lemma parseInt_digit d r :
  is_digit d = true →
  match r with
  | String k _ => is_digit k = true ∨ k = " "%char
  | EmptyString => True
  end →
  parseInt (String d r) = Int (default 0 (digits_prefix 10 (Some (code d - 48)) r)) ∧
  is_Some (digits_prefix 10 (Some (code d - 48)) r).
Proof.
  intros Hd Hr. unfold parseInt. cbn [trimStart].
  rewrite is_digit_not_space by done. unfold strip_sign.
  rewrite !(is_digit_not d) by done.
  assert (strip_hex_prefix (String d r) = (10, String d r)) as ->.
  { unfold strip_hex_prefix. destruct r as [|k r]; [done|].
    destruct Hr as [Hk| ->].
    - rewrite !(is_digit_not k) by done. by rewrite andb_false_r.
    - by rewrite andb_false_r. }
  cbn [digits_prefix]. rewrite digit_value_10 by done. cbn [default].
  replace (10 * 0 + (code d - 48)) with (code d - 48) by lia.
  assert (∀ s a, is_Some (digits_prefix 10 (Some a) s)) as Hsome.
  { induction s as [|k s IH]; intros a; cbn; [by eexists|].
    destruct (digit_value 10 k); [apply IH|by eexists]. }
  destruct (Hsome r (code d - 48)) as [m Hm]. rewrite Hm. cbn.
  split; [f_equal; lia|by eexists].
Qed.

Lemma digits_prefix_stop a c r :
  is_digit c = false → digits_prefix 10 (Some a) (String c r) = Some a.
Proof. intros Hc. cbn. by rewrite digit_value_none. Qed.

Lemma space_not_digit : is_digit " " = false.
Proof. done. Qed.

(** After the letters of a reference: the row that [parseInt] reads. *)
Lemma regex_row_range r :
  regex_run InLetters r = true →
  parseInt r = NaN ∨ ∃ z, parseInt r = Int z ∧ 0 <= z <= 99.
Proof.
  destruct r as [|d r]; [done|]. cbn [regex_run regex_step].
  destruct (is_upper d) eqn:Hup.
  { intros _. left. by apply parseInt_upper. }
  destruct (is_digit d) eqn:Hd; [|done].
  pose proof Hd as Hd'. unfold is_digit, between in Hd'.
  intros Hrun. right.
  destruct r as [|k r].
  - destruct (parseInt_digit d "" Hd I) as [-> _]. cbn. eexists. split; [done|lia].
  - cbn [regex_run regex_step] in Hrun.
    destruct (is_digit k) eqn:Hk.
    + pose proof Hk as Hk'. unfold is_digit, between in Hk'.
      destruct (parseInt_digit d (String k r) Hd (or_introl Hk)) as [-> _].
      cbn [digits_prefix]. rewrite digit_value_10 by done. cbn [default].
      destruct r as [|j r].
      * cbn. eexists. split; [done|lia].
      * cbn [regex_run regex_step] in Hrun.
        destruct (Ascii.eqb_spec j " ") as [->|]; [|done].
        rewrite digits_prefix_stop by done. cbn. eexists. split; [done|lia].
    + destruct (Ascii.eqb_spec k " ") as [->|]; [|done].
      destruct (parseInt_digit d (String " " r) Hd (or_intror eq_refl)) as [-> _].
      rewrite digits_prefix_stop by done. cbn. eexists. split; [done|lia].
Qed.

Lemma reference_range token :
  cellRefRegex_test token = true →
  (∃ col, (getCellIndices token).2 = Int col ∧ 0 <= col <= 25) ∧
  ((getCellIndices token).1 = NaN ∨
   ∃ row, (getCellIndices token).1 = Int row ∧ -1 <= row <= 98).
Proof.
  unfold cellRefRegex_test, getCellIndices.
  destruct token as [|c r]; [done|]. cbn [regex_run regex_step].
  destruct (is_upper c) eqn:Hc; [|done]. intros Hrun. cbn [fst snd charCodeAt0 slice1].
  split.
  - exists (code c - 65). split; [done|]. unfold is_upper, between in Hc. lia.
  - destruct (regex_row_range r Hrun) as [->|(z & -> & Hz)]; [by left|].
    right. exists (z - 1). split; [done|lia].
Qed.

(** A reference with two leading capitals has no row. *)
Lemma two_letters_out_of_bounds l1 l2 rest numRows numCols :
  is_upper l1 = true → is_upper l2 = true →
  (getCellIndices (String l1 (String l2 rest))).1 = NaN ∧
  in_bounds numRows numCols
    (getCellIndices (String l1 (String l2 rest))).1
    (getCellIndices (String l1 (String l2 rest))).2 = false.
Proof.
  intros H1 H2. unfold getCellIndices. cbn [fst snd slice1].
  by rewrite parseInt_upper.
Qed.

(** Which single-letter references the bounds check admits. *)
Lemma single_letter_in_bounds letter digits numRows numCols :
  is_upper letter = true →
  all_chars is_digit digits = true →
  (1 ≤ String.length digits ≤ 2)%nat →
  in_bounds numRows numCols
    (getCellIndices (String letter digits)).1
    (getCellIndices (String letter digits)).2 = true ↔
  1 <= decimal_value 0 digits <= numRows ∧ code letter - 65 < numCols.
Proof.
  intros Hl Hd Hlen.
  destruct (single_letter_reference letter digits Hl Hd Hlen) as [_ ->].
  unfold in_bounds. cbn. unfold is_upper, between in Hl. lia.
Qed.


(** * More on single evaluations *)

Lemma errors_app t1 t2 : errors (t1 ++ t2) = (errors t1 ++ errors t2)%list.
Proof.
  induction t1 as [|e t1 IH]; [done|].
  destruct e; cbn; by rewrite ?IH.
Qed.

Lemma split_app_space s1 s2 :
  split " " (s1 ++ " " ++ s2) = (split " " s1 ++ split " " s2)%list.
Proof.
  induction s1 as [|c r IH].
  - change ("" ++ " " ++ s2) with (String " " s2).
    by rewrite split_space_cons.
  - change (String c r ++ " " ++ s2) with (String c (r ++ " " ++ s2)).
    rewrite !split_space_cons, IH.
    destruct (c =? " ")%char; [done|].
    destruct (split " " r) as [|t ts] eqn:Hr; [|done].
    pose proof (split_from_nonempty " " O r) as Hlen.
    unfold split in Hr. rewrite Hr in Hlen. cbn in Hlen. lia.
Qed.

Section EvaluationsMore.

Variable initialCells : list (list string).
Variables numRows numCols : Z.

Local Abbreviation loop := (evalTokens initialCells numRows numCols).
Local Abbreviation eval := (evaluateCell initialCells numRows numCols).

Lemma blank_never_Value s token :
  token ∈ split " " s → trim token = "" →
  ∀ fuel v st st', eval fuel (Text s) st ≠ Done (Value v) st'.
Proof.
  intros Hin Hblank fuel v st st' Hrun.
  destruct fuel as [|fuel]; [done|]. cbn [evaluateCell] in Hrun.
  apply evalTokens_Value in Hrun. rewrite Forall_forall in Hrun.
  by apply Hrun in Hin as [? _].
Qed.

Lemma evalTokens_blank recur pre token post sum st sum1 st1 :
  loop recur pre sum st = Done (Value sum1) st1 →
  trim token = "" →
  loop recur (pre ++ token :: post) sum st =
    Done ERR (console_error msg_empty_token st1).
Proof.
  intros Hpre Hblank. rewrite evalTokens_app, Hpre. cbn [evalTokens].
  by rewrite bool_decide_eq_true_2.
Qed.

(** The loop at a reference into a row that the grid does not have. *)
Lemma evalTokens_missing_row recur pre token post sum st sum1 st1 row col :
  loop recur pre sum st = Done (Value sum1) st1 →
  cellRefRegex_test token = true →
  getCellIndices token = (Int row, col) →
  in_bounds numRows numCols (Int row) col = true →
  Z.of_nat (length initialCells) <= row →
  loop recur (pre ++ token :: post) sum st = Thrown TypeError st1.
Proof.
  intros Hpre Hregex Hindices Hbounds Hrow.
  rewrite evalTokens_app, Hpre. cbn [evalTokens].
  rewrite bool_decide_eq_false_2 by by apply regex_not_blank.
  rewrite Hregex, Hindices, Hbounds.
  assert (referenced initialCells (Int row) col = None) as ->; [|done].
  unfold referenced. destruct (Z.ltb_spec row 0); [done|].
  rewrite (proj2 (lookup_ge_None initialCells (Z.to_nat row))); [done|lia].
Qed.

(** The loop at a reference to a column that the row does not have. *)
Lemma evalTokens_missing_column fuel pre token post sum st sum1 st1 row col cells :
  loop (eval (S fuel)) pre sum st = Done (Value sum1) st1 →
  cellRefRegex_test token = true →
  getCellIndices token = (Int row, Int col) →
  in_bounds numRows numCols (Int row) (Int col) = true →
  initialCells !! Z.to_nat row = Some cells →
  Z.of_nat (length cells) <= col →
  loop (eval (S fuel)) (pre ++ token :: post) sum st =
    Done ERR
      (if bool_decide (Undefined ∈ visitedCells st1)
       then console_error (msg_circular token) st1
       else console_error msg_empty_cell
              (emit (Recurse token Undefined ({[Undefined]} ∪ visitedCells st1))
                 (visited_add Undefined st1))).
Proof.
  intros Hpre Hregex Hindices Hbounds Hrow Hcol.
  rewrite evalTokens_app, Hpre. cbn [evalTokens].
  rewrite bool_decide_eq_false_2 by by apply regex_not_blank.
  rewrite Hregex, Hindices, Hbounds.
  assert (referenced initialCells (Int row) (Int col) = Some Undefined) as ->.
  { unfold referenced, in_bounds in *. cbn in Hbounds.
    destruct (Z.ltb_spec row 0); [lia|]. rewrite Hrow.
    destruct (Z.ltb_spec col 0); [lia|].
    rewrite (proj2 (lookup_ge_None cells (Z.to_nat col))); [done|lia]. }
  by case_bool_decide.
Qed.
(** The diagnostics of an evaluation. *)
Lemma evalTokens_reported recur :
  (∀ c st, reported st (recur c st)) →
  ∀ tokens sum st, reported st (loop recur tokens sum st).
Proof.
  intros Hrec tokens.
  induction tokens as [|token rest IH]; intros sum st; cbn [evalTokens];
    [done|].
  goal_branches;
    try (exists msg_empty_token; cbn; by rewrite errors_app);
    try (eexists; cbn; by rewrite errors_app); try done.
  - specialize (Hrec referencedCell
      (emit (Recurse token referencedCell (visitedCells (visited_add referencedCell st)))
            (visited_add referencedCell st))).
    destruct (recur _ _) as [[v|] st3|e st3|]; cbn in Hrec;
      rewrite ?errors_app in Hrec; cbn in Hrec; rewrite ?app_nil_r in Hrec;
      [| done..].
    specialize (IH (add sum v) (visited_delete referencedCell st3)).
    destruct (loop recur rest _ _) as [[w|] st4|e st4|]; cbn in *;
      by rewrite <- ?Hrec.
Qed.

Lemma evaluateCell_reported fuel c st : reported st (eval fuel c st).
Proof.
  revert c st.
  induction fuel as [|fuel IH]; intros c st; [done|].
  destruct c as [|s]; cbn [evaluateCell].
  - eexists. cbn. by rewrite errors_app.
  - by apply evalTokens_reported.
Qed.

(** A text that has a reference to a cell whose own evaluation fails
    fails. *)
Lemma failing_reference_never_Value s q t :
  has_rows initialCells numRows →
  refers numRows numCols s q →
  content initialCells q = Some t →
  evaluate_fresh initialCells numRows numCols t = ERR →
  ∀ fuel v st st', eval fuel (Text s) st ≠ Done (Value v) st'.
Proof.
  intros Hrows (token & Hin & Hregex & Hindices & Hr & Hc) Hq Hfresh
    fuel v st st' Hrun.
  destruct fuel as [|fuel]; [done|]. cbn [evaluateCell] in Hrun.
  apply evalTokens_Value in Hrun. rewrite Forall_forall in Hrun.
  apply Hrun in Hin as [_ Hpass]. rewrite Hregex, Hindices in Hpass.
  cbn in Hpass. destruct Hpass as (_ & c & stA & n & stB & Href & Hcall).
  apply referenced_content in Href. rewrite Hq in Href. subst c.
  destruct (evaluateCell_smaller_set _ _ _ _ _ fresh stA n stB
              (empty_subseteq _) Hcall) as [st1 Hcall1].
  unfold evaluate_fresh in Hfresh.
  destruct (eval (driver_fuel initialCells) (Text t) fresh)
    as [r st2|e st2|] eqn:Hrun2.
  - subst r.
    assert (Done (Value n) st1 = Done ERR st2) as Heq; [|done].
    eapply evaluateCell_fuel_agree; [exact Hcall1|exact Hrun2|done..].
  - by apply evaluateCell_no_throw in Hrun2.
  - apply evaluateCell_enough in Hrun2; [done|]. unfold driver_fuel.
    apply Nat.lt_succ_r, subseteq_size, subseteq_difference_l. done.
Qed.

(** Which way the loop ends depends on the tokens and the Visited Set
    only, not on the sum so far or the console. *)
Lemma evalTokens_alike recur :
  (∀ c st st', visitedCells st = visitedCells st' →
               alike (recur c st) (recur c st')) →
  ∀ tokens sum sum' st st',
    visitedCells st = visitedCells st' →
    alike (loop recur tokens sum st) (loop recur tokens sum' st').
Proof.
  intros Hrec tokens.
  induction tokens as [|token rest IH]; intros sum sum' st st' Hset;
    cbn [evalTokens]; [done|].
  case_bool_decide; [done|].
  destruct (cellRefRegex_test token).
  - destruct (getCellIndices token) as [row col].
    destruct (in_bounds numRows numCols row col); [|done].
    destruct (referenced initialCells row col) as [referencedCell|]; [|done].
    rewrite <- Hset. case_bool_decide; [done|]. cbn zeta.
    specialize (Hrec referencedCell
      (emit (Recurse token referencedCell (visitedCells (visited_add referencedCell st)))
            (visited_add referencedCell st))
      (emit (Recurse token referencedCell (visitedCells (visited_add referencedCell st')))
            (visited_add referencedCell st'))).
    cbn in Hrec. rewrite <- Hset in Hrec. specialize (Hrec eq_refl).
    cbn. rewrite <- Hset.
    destruct (recur referencedCell _) as [[v|] st3|e st3|];
      destruct (recur referencedCell _) as [[v'|] st3'|e' st3'|];
      cbn in Hrec; try done.
    apply IH. cbn. by rewrite Hrec.
  - destruct (negb (isNaN token)); [by apply IH|done].
Qed.

Lemma evaluateCell_alike fuel c st st' :
  visitedCells st = visitedCells st' →
  alike (eval fuel c st) (eval fuel c st').
Proof.
  revert c st st'.
  induction fuel as [|fuel IH]; intros c st st' Hset; [done|].
  destruct c as [|s]; [done|]. cbn [evaluateCell].
  by apply evalTokens_alike.
Qed.

(** The evaluation of two texts joined by a space. *)
Lemma evaluateCell_joined fuel s1 s2 st r1 st1 r2 st2 :
  eval fuel (Text s1) st = Done r1 st1 →
  eval fuel (Text s2) st = Done r2 st2 →
  ∃ r st',
    eval fuel (Text (s1 ++ " " ++ s2)) st = Done r st' ∧
    (r = ERR ↔ r1 = ERR ∨ r2 = ERR) ∧
    (r1 = ERR → st' = st1).
Proof.
  destruct fuel as [|fuel]; [done|]. cbn [evaluateCell].
  intros H1 H2. rewrite split_app_space, evalTokens_app, H1.
  destruct r1 as [n1|].
  - assert (visitedCells st = visitedCells st1) as Hset.
    { symmetry. eapply evalTokens_frame; [|exact H1].
      intros c st0 n st0'. apply evaluateCell_frame. }
    pose proof (evalTokens_alike (eval fuel) (evaluateCell_alike fuel)
                  (split " " s2) (Int 0) n1 st st1 Hset) as Hlike.
    rewrite H2 in Hlike.
    destruct (loop (eval fuel) (split " " s2) n1 st1) as [r st'|e st'|];
      [|by destruct r2..].
    exists r, st'. split; [done|].
    destruct r2, r; cbn in Hlike; try done; split; try done; intuition congruence.
  - exists ERR, st1. split; [done|]. split; [|done]. by split; [left|].
Qed.

End EvaluationsMore.


(** * Runs without empty tokens *)

Lemma no_empty_report_error msg t :
  msg ≠ msg_empty_token → msg ≠ msg_empty_cell →
  no_empty_report t → no_empty_report (t ++ [ConsoleError msg]).
Proof.
  intros H1 H2 [Ht Hc]. unfold no_empty_report. rewrite errors_app. cbn.
  split; intros [?|?%list_elem_of_singleton]%elem_of_app; done.
Qed.

Lemma no_empty_report_silent e t :
  is_console_error e = false →
  no_empty_report t → no_empty_report (t ++ [e]).
Proof.
  intros He [Ht Hc]. unfold no_empty_report. rewrite errors_app.
  destruct e; cbn in *; try done; by rewrite app_nil_r.
Qed.

Section NoEmptyReport.

Variable initialCells : list (list string).
Variables numRows numCols : Z.

Hypothesis grid_blank_free : blank_free initialCells numRows numCols.

Local Abbreviation loop := (evalTokens initialCells numRows numCols).
Local Abbreviation eval := (evaluateCell initialCells numRows numCols).

Lemma evalTokens_no_empty_report recur :
  (∀ c st st', no_blank_token c → no_empty_report (trace st) →
               final_state (recur c st) = Some st' →
               no_empty_report (trace st')) →
  ∀ tokens sum st st',
    Forall (λ token, trim token ≠ "") tokens →
    no_empty_report (trace st) →
    final_state (loop recur tokens sum st) = Some st' →
    no_empty_report (trace st').
Proof.
  intros Hrec tokens.
  induction tokens as [|token rest IH]; intros sum st st' Hall Hst;
    cbn [evalTokens]; [by intros [= <-]|].
  apply Forall_cons in Hall as [Htoken Hrest].
  goal_branches; try done;
    try (intros [= <-]; cbn; first [done | by apply no_empty_report_error]).
  - specialize (Hrec referencedCell
      (emit (Recurse token referencedCell (visitedCells (visited_add referencedCell st)))
            (visited_add referencedCell st))).
    assert (no_empty_report
              (trace (emit (Recurse token referencedCell
                              (visitedCells (visited_add referencedCell st)))
                        (visited_add referencedCell st)))) as Hst2
      by (cbn; by apply no_empty_report_silent).
    destruct (recur _ _) as [[v|] st3|e st3|]; cbn; [| | |done].
    + intros Hfinal. eapply IH; [done| |exact Hfinal]. cbn.
      apply (Hrec st3); [by eapply grid_blank_free|done..].
    + intros [= <-]. apply (Hrec st3); [by eapply grid_blank_free|done..].
    + intros [= <-]. apply (Hrec st3); [by eapply grid_blank_free|done..].
  - by apply IH.
Qed.

Lemma evaluateCell_no_empty_report fuel c st st' :
  no_blank_token c → no_empty_report (trace st) →
  final_state (eval fuel c st) = Some st' →
  no_empty_report (trace st').
Proof.
  revert c st st'.
  induction fuel as [|fuel IH]; intros c st st' Hc Hst; [done|].
  destruct c as [|s]; [done|]. cbn [evaluateCell].
  by apply evalTokens_no_empty_report.
Qed.

End NoEmptyReport.

Lemma normalize_no_blank_token v :
  trim v ≠ "" → no_blank_token (Text (normalize v)).
Proof.
  intros Hv. cbn. eapply Forall_impl; [by apply normalize_tokens|].
  intros token Hw. rewrite (word_trim token Hw). apply Hw.
Qed.

Section DriverNoEmptyReport.

Variable fuel : nat.
Variable populatedCells : list (list string).
Variables numRows numCols : nat.

Hypothesis grid_blank_free :
  blank_free populatedCells (Z.of_nat numRows) (Z.of_nat numCols).

Local Abbreviation cols := (colLoop fuel populatedCells numRows numCols).
Local Abbreviation rows_loop := (rowLoop fuel populatedCells numRows numCols).

Lemma colLoop_no_empty_report values row k col evaluatedValues st st' :
  Forall (λ v, trim v ≠ "") values →
  no_empty_report (trace st) →
  final_state (cols values row k col evaluatedValues st) = Some st' →
  no_empty_report (trace st').
Proof.
  intros Hvalues. revert col evaluatedValues st.
  induction k as [|k IH]; intros col evaluatedValues st Hst; cbn [colLoop];
    [by intros [= <-]|].
  destruct (values !! col) as [v|] eqn:Hv; [|by intros [= <-]].
  assert (no_blank_token (Text (normalize v))) as Hcell.
  { apply normalize_no_blank_token.
    by apply (Forall_lookup_1 _ _ _ _ Hvalues Hv). }
  pose proof (evaluateCell_no_empty_report populatedCells (Z.of_nat numRows)
                (Z.of_nat numCols) grid_blank_free fuel (Text (normalize v))
                (emit (Invoke row col (Text (normalize v)) (visitedCells st)) st))
    as Hcall.
  assert (no_empty_report
            (trace (emit (Invoke row col (Text (normalize v)) (visitedCells st)) st)))
    as Hst1 by (cbn; by apply no_empty_report_silent).
  destruct (evaluateCell _ _ _ _ _ _) as [r st2|e st2|]; cbn; [| |done].
  - apply IH. by apply Hcall.
  - intros [= <-]. by apply Hcall.
Qed.

Lemma rowLoop_no_empty_report rows k row result st st' :
  Forall (λ line, Forall (λ v, trim v ≠ "") (split "," line)) rows →
  no_empty_report (trace st) →
  final_state (rows_loop rows k row result st) = Some st' →
  no_empty_report (trace st').
Proof.
  intros Hrows. revert row result st.
  induction k as [|k IH]; intros row result st Hst; cbn [rowLoop];
    [by intros [= <-]|].
  destruct (rows !! row) as [r|] eqn:Hr; [|by intros [= <-]].
  case_bool_decide.
  - intros [= <-]. cbn. by apply no_empty_report_error.
  - pose proof (colLoop_no_empty_report (split "," r) row numCols O [] st) as Hcols.
    destruct (cols _ _ _ _ _ _) as [evaluatedValues st1|e st1|]; cbn; [| |done].
    + apply IH. apply Hcols; [|done..].
      by apply (Forall_lookup_1 _ _ _ _ Hrows Hr).
    + intros [= <-]. apply Hcols; [|done..].
      by apply (Forall_lookup_1 _ _ _ _ Hrows Hr).
Qed.

End DriverNoEmptyReport.

(** In the grid of an input with rows of one length and no blank field,
    every cell inside the bounds is a text without blank token. *)
Lemma grid_of_blank_free csvData :
  Forall (λ line, length (split "," line) = width csvData) (rows_of csvData) →
  Forall (λ line, Forall (λ v, trim v ≠ "") (split "," line)) (rows_of csvData) →
  blank_free (grid_of csvData) (Z.of_nat (length (rows_of csvData)))
    (Z.of_nat (width csvData)).
Proof.
  intros Hall Hfields row col c Hbounds Href.
  destruct (grid_of_built csvData) as (_ & _ & _ & _ & Hcontent).
  unfold in_bounds in Hbounds.
  destruct row as [r|], col as [cc|]; cbn in Hbounds; try done;
    [|by rewrite andb_false_r in Hbounds].
  apply andb_prop in Hbounds as [Hbounds Hc2].
  apply andb_prop in Hbounds as [Hbounds Hc1].
  apply andb_prop in Hbounds as [Hr1 Hr2].
  apply Z.leb_le in Hr1, Hc1. apply Z.ltb_lt in Hr2, Hc2.
  rewrite <- (Z2Nat.id r), <- (Z2Nat.id cc) in Href by lia.
  apply (referenced_content _ (Z.to_nat r, Z.to_nat cc)) in Href.
  rewrite Hcontent in Href by lia. subst c. cbn.
  unfold stored_text.
  destruct (rows_of csvData !! Z.to_nat r) as [line|] eqn:Hline.
  - pose proof (Forall_lookup_1 _ _ _ _ Hall Hline) as Hlen.
    pose proof (Forall_lookup_1 _ _ _ _ Hfields Hline) as Hline_fields.
    cbn in Hlen, Hline_fields.
    destruct (split "," line !! Z.to_nat cc) as [v|] eqn:Hv.
    + apply normalize_no_blank_token.
      by apply (Forall_lookup_1 _ _ _ _ Hline_fields Hv).
    + apply lookup_ge_None in Hv. lia.
  - apply lookup_ge_None in Hline. lia.
Qed.

Lemma processCSV_no_empty_report fuel csvData st :
  Forall (λ line, length (split "," line) = width csvData) (rows_of csvData) →
  Forall (λ line, Forall (λ v, trim v ≠ "") (split "," line)) (rows_of csvData) →
  final_state (processCSV fuel csvData) = Some st →
  no_empty_report (trace st).
Proof.
  intros Hall Hfields. rewrite processCSV_rowLoop.
  pose proof (rowLoop_no_empty_report fuel (grid_of csvData)
                (length (rows_of csvData)) (width csvData)
                (grid_of_blank_free csvData Hall Hfields)
                (rows_of csvData) (length (rows_of csvData)) O [] fresh)
    as Hloop.
  assert (no_empty_report (trace fresh)) as Hfresh
    by (split; apply not_elem_of_nil).
  destruct (rowLoop _ _ _ _ _ _ _ _ _) as [result st1|e st1|]; cbn; [| |done].
  - intros [= <-]. cbn. apply no_empty_report_silent; [done|]. by apply Hloop.
  - intros [= <-]. by apply Hloop.
Qed.


(** * Further verified properties *)

(** ** The grid builder *)

(** X1.  For positive dimensions, [initializeCells] followed by
    [populateCells] over at least [numRows] input rows succeeds and gives
    a grid of exactly [numRows] rows of [numCols] cells each, in which
    the cell at (r, c) holds the normalized field c of row r, or the
    empty string if row r has no field c; fields beyond [numCols] are
    dropped. *)
Theorem built_grid_is_rectangular
    (rows : list string) (numRows numCols : nat)
    (initialCells : list (list string)) :
  initializeCells (Z.of_nat numRows) (Z.of_nat numCols) = inr initialCells →
  (numRows ≤ length rows)%nat →
  ∃ populatedCells,
    populateCells rows numRows numCols initialCells = Some populatedCells ∧
    length populatedCells = numRows ∧
    Forall (λ cells, length cells = numCols) populatedCells ∧
    ∀ r c, (r < numRows)%nat → (c < numCols)%nat →
           content populatedCells (r, c) = Some (stored_text rows r c).
Proof. apply built_grid. Qed.

Lemma built_grid_is_rectangular_witness :
  initializeCells (Z.of_nat 2) (Z.of_nat 2) = inr [[""; ""]; [""; ""]] ∧
  (2 ≤ length ["1,  A1   B2 ,3"; "4"])%nat ∧
  ∃ populatedCells,
    populateCells ["1,  A1   B2 ,3"; "4"] 2 2 [[""; ""]; [""; ""]] =
      Some populatedCells ∧
    length populatedCells = 2%nat ∧
    Forall (λ cells, length cells = 2%nat) populatedCells ∧
    ∀ r c, (r < 2)%nat → (c < 2)%nat →
           content populatedCells (r, c) =
             Some (stored_text ["1,  A1   B2 ,3"; "4"] r c).
Proof.
  assert (2 ≤ length ["1,  A1   B2 ,3"; "4"])%nat as Hle by (cbn; lia).
  split; [reflexivity|]. split; [exact Hle|].
  exact (built_grid_is_rectangular ["1,  A1   B2 ,3"; "4"] 2 2
           [[""; ""]; [""; ""]] eq_refl Hle).
Defined.

(** X2.  Normalizing a field (trim, then every run of white space to one
    space) is idempotent; the result is empty exactly for a blank field,
    and otherwise consists of words separated by single spaces. *)
Theorem normalize_is_idempotent (v : string) :
  normalize (normalize v) = normalize v ∧
  ((trim v = "" ∧ normalize v = "") ∨
   (normalized_from true (normalize v) = true ∧ trim (normalize v) = normalize v)).
Proof.
  destruct (decide (trim v = "")) as [Hblank|Hne].
  - rewrite (normalize_blank v Hblank). split; [done|]. by left.
  - pose proof (normalize_normalized v Hne) as Hnorm.
    destruct (normalized_fixed _ Hnorm) as [Hfix _].
    split; [done|]. right. split; [done|].
    clear Hfix. unfold trim. destruct (normalize v) as [|c r]; [done|].
    cbn [normalized_from] in Hnorm. cbn [trimStart].
    destruct (is_space c) eqn:Hc; [by rewrite andb_false_r in Hnorm|].
    apply (normalized_trimEnd true). cbn [normalized_from]. by rewrite Hc.
Qed.

(** X3.  On an input whose rows all have the field count of the first
    row and none of whose fields is blank, [processCSV] ends normally and
    writes neither the empty-token nor the empty-cell message, in any
    evaluation of a cell or recursive call of the run.  (Every text the
    run evaluates or stores is then a normalized non-blank field, whose
    tokens are words.  Without the first condition a reference can read
    a cell that no field filled, whose empty text is one blank token.) *)
Theorem empty_token_only_for_blank_fields (csvData : string) :
  Forall (λ line, length (split "," line) = width csvData) (rows_of csvData) →
  Forall (λ line, Forall (λ v, trim v ≠ "") (split "," line)) (rows_of csvData) →
  ∃ st,
    (∀ k, processCSV (driver_fuel (grid_of csvData) + k) csvData = Done tt st) ∧
    ("Empty token found. Defaulting to #ERR" ∉ errors (trace st)) ∧
    ("Empty cell value found. Defaulting to #ERR" ∉ errors (trace st)).
Proof.
  intros Hall Hfields.
  destruct (processCSV_consistent csvData Hall) as (st & Hrun & _).
  exists st. split; [done|].
  apply (processCSV_no_empty_report (driver_fuel (grid_of csvData) + 0) csvData);
    [done..|].
  by rewrite Hrun.
Qed.

Lemma empty_token_only_for_blank_fields_witness :
  Forall (λ line, length (split "," line) = width ("1,A1" ++ CRLF ++ "2 3,B1"))
    (rows_of ("1,A1" ++ CRLF ++ "2 3,B1")) ∧
  Forall (λ line, Forall (λ v, trim v ≠ "") (split "," line))
    (rows_of ("1,A1" ++ CRLF ++ "2 3,B1")) ∧
  ∃ st,
    (∀ k, processCSV (driver_fuel (grid_of ("1,A1" ++ CRLF ++ "2 3,B1")) + k)
            ("1,A1" ++ CRLF ++ "2 3,B1") = Done tt st) ∧
    ("Empty token found. Defaulting to #ERR" ∉ errors (trace st)) ∧
    ("Empty cell value found. Defaulting to #ERR" ∉ errors (trace st)).
Proof.
  assert (Forall (λ line, length (split "," line) =
                            width ("1,A1" ++ CRLF ++ "2 3,B1"))
            (rows_of ("1,A1" ++ CRLF ++ "2 3,B1"))) as Hall
    by (apply (bool_decide_unpack _); vm_compute; exact I).
  assert (Forall (λ line, Forall (λ v, trim v ≠ "") (split "," line))
            (rows_of ("1,A1" ++ CRLF ++ "2 3,B1"))) as Hfields
    by (apply (bool_decide_unpack _); vm_compute; exact I).
  split; [exact Hall|]. split; [exact Hfields|].
  exact (empty_token_only_for_blank_fields ("1,A1" ++ CRLF ++ "2 3,B1")
           Hall Hfields).
Defined.

(** ** Single evaluations *)

(** X4.  A cell text all of whose tokens are numeric strings (not blank,
    no reference, accepted by [isNaN]) evaluates to the sum of
    [parseInt] of its tokens, whatever the grid, the dimensions and the
    Visited Set, and leaves the state as it was. *)
Theorem numeric_text_evaluates_to_sum
    (initialCells : list (list string)) (numRows numCols : Z)
    (fuel : nat) (s : string) (st : state) :
  Forall numeric_token (split " " s) →
  evaluateCell initialCells numRows numCols (S fuel) (Text s) st =
    Done (Value (sum_of (split " " s))) st.
Proof. intros Hall. cbn [evaluateCell]. by apply evalTokens_numeric. Qed.

Lemma numeric_text_evaluates_to_sum_witness :
  Forall numeric_token (split " " "1 -2 0x10 1.5") ∧
  evaluateCell [] 3 3 1 (Text "1 -2 0x10 1.5") fresh =
    Done (Value (Int 16)) fresh.
Proof.
  assert (Forall numeric_token (split " " "1 -2 0x10 1.5")) as Hall.
  { change (split " " "1 -2 0x10 1.5") with ["1"; "-2"; "0x10"; "1.5"].
    repeat constructor; discriminate. }
  split; [exact Hall|].
  exact (numeric_text_evaluates_to_sum [] 3 3 O "1 -2 0x10 1.5" fresh Hall).
Defined.

(** X5.  A cell text with a blank token (the empty text, a leading, a
    trailing or a doubled space) evaluates to the error marker; at the
    blank token the evaluation ends with the one empty-token message,
    whatever follows. *)
Theorem blank_token_stops_evaluation
    (initialCells : list (list string)) (numRows numCols : Z)
    (s : string) (pre : list string) (token : string) (post : list string)
    (st : state) :
  has_rows initialCells numRows →
  split " " s = (pre ++ token :: post)%list →
  trim token = "" →
  (∃ st', ∀ k,
     evaluateCell initialCells numRows numCols
       (depth_bound initialCells st + k) (Text s) st = Done ERR st') ∧
  (∀ fuel sum st1,
     evalTokens initialCells numRows numCols
       (evaluateCell initialCells numRows numCols fuel) pre (Int 0) st =
       Done (Value sum) st1 →
     evaluateCell initialCells numRows numCols (S fuel) (Text s) st =
       Done ERR (console_error msg_empty_token st1)).
Proof.
  intros Hrows Hsplit Hblank. split.
  - apply evaluateCell_ERR_plus; [done|]. intros fuel v st'.
    eapply blank_never_Value; [|done].
    rewrite Hsplit. apply elem_of_app. right. by left.
  - intros fuel sum st1 Hpre. cbn [evaluateCell]. rewrite Hsplit.
    by eapply evalTokens_blank.
Qed.

Lemma blank_token_stops_evaluation_witness :
  has_rows [] 0 ∧
  split " " "7  8" = (["7"] ++ "" :: ["8"])%list ∧
  trim "" = "" ∧
  evalTokens [] 0 0 (evaluateCell [] 0 0 0) ["7"] (Int 0) fresh =
    Done (Value (Int 7)) fresh ∧
  evaluateCell [] 0 0 1 (Text "7  8") fresh =
    Done ERR (console_error msg_empty_token fresh).
Proof.
  assert (has_rows [] 0) as Hrows by (unfold has_rows; cbn; lia).
  split; [exact Hrows|]. do 3 (split; [reflexivity|]).
  exact (proj2 (blank_token_stops_evaluation [] 0 0 "7  8" ["7"] "" ["8"]
                  fresh Hrows eq_refl eq_refl)
           O (Int 7) fresh eq_refl).
Defined.

(** X6.  A call of [evaluateCell], however it ends, takes no entry out of
    the Visited Set it was given; the entries it leaves in besides are
    values of the grid. *)
Theorem visited_entries_are_kept
    (initialCells : list (list string)) (numRows numCols : Z)
    (fuel : nat) (c : cell) (st st' : state) :
  final_state (evaluateCell initialCells numRows numCols fuel c st) = Some st' →
  visitedCells st ⊆ visitedCells st' ∧
  visitedCells st' ⊆ visitedCells st ∪ grid_values initialCells.
Proof. intros Hfin. by eapply evaluateCell_visited_bounds. Qed.

Lemma visited_entries_are_kept_witness :
  final_state (evaluateCell twin_grid 1 4 2 (Text "B1") fresh) =
    Some (mkState {[Text "x"]}
            [Recurse "B1" (Text "x") {[Text "x"]};
             ConsoleError (msg_invalid "x")]) ∧
  (∅ : gset cell) ⊆ {[Text "x"]} ∧
  ({[Text "x"]} : gset cell) ⊆ ∅ ∪ grid_values twin_grid.
Proof.
  assert (final_state (evaluateCell twin_grid 1 4 2 (Text "B1") fresh) =
    Some (mkState {[Text "x"]}
            [Recurse "B1" (Text "x") {[Text "x"]};
             ConsoleError (msg_invalid "x")])) as Hrun
    by (vm_compute; reflexivity).
  split; [exact Hrun|].
  exact (visited_entries_are_kept twin_grid 1 4 2 (Text "B1") fresh _ Hrun).
Defined.

(** X7.  If a cell evaluates to a number from some Visited Set, it
    evaluates to the same number, within the same depth, from every
    subset of that set: more entries can only turn numbers into error
    markers. *)
Theorem value_from_smaller_set
    (initialCells : list (list string)) (numRows numCols : Z)
    (fuel : nat) (c : cell) (st st' : state) (n : number) (st1' : state) :
  visitedCells st ⊆ visitedCells st' →
  evaluateCell initialCells numRows numCols fuel c st' = Done (Value n) st1' →
  ∃ st1, evaluateCell initialCells numRows numCols fuel c st = Done (Value n) st1.
Proof. apply evaluateCell_smaller_set. Qed.

Lemma value_from_smaller_set_witness :
  visitedCells fresh ⊆ visitedCells (mkState {[Text "x"]} []) ∧
  evaluateCell [["5"; "7"]] 1 2 2 (Text "A1 B1") (mkState {[Text "x"]} []) =
    Done (Value (Int 12))
      (mkState {[Text "x"]}
         [Recurse "A1" (Text "5") {[Text "5"; Text "x"]};
          Recurse "B1" (Text "7") {[Text "7"; Text "x"]}]) ∧
  ∃ st1, evaluateCell [["5"; "7"]] 1 2 2 (Text "A1 B1") fresh =
           Done (Value (Int 12)) st1.
Proof.
  assert (visitedCells fresh ⊆ visitedCells (mkState {[Text "x"]} [])) as Hsub
    by apply empty_subseteq.
  assert (evaluateCell [["5"; "7"]] 1 2 2 (Text "A1 B1") (mkState {[Text "x"]} []) =
    Done (Value (Int 12))
      (mkState {[Text "x"]}
         [Recurse "A1" (Text "5") {[Text "5"; Text "x"]};
          Recurse "B1" (Text "7") {[Text "7"; Text "x"]}])) as Hrun
    by (vm_compute; reflexivity).
  split; [exact Hsub|]. split; [exact Hrun|].
  exact (value_from_smaller_set [["5"; "7"]] 1 2 2 (Text "A1 B1") fresh
           _ _ _ Hsub Hrun).
Defined.

(** X8.  The number a cell evaluates to is unique: two calls that both
    return a number return the same number, whatever their Visited Sets,
    console states and depths. *)
Theorem value_is_unique
    (initialCells : list (list string)) (numRows numCols : Z)
    (fuel1 fuel2 : nat) (c : cell) (st1 st2 : state)
    (n1 n2 : number) (st1' st2' : state) :
  evaluateCell initialCells numRows numCols fuel1 c st1 = Done (Value n1) st1' →
  evaluateCell initialCells numRows numCols fuel2 c st2 = Done (Value n2) st2' →
  n1 = n2.
Proof. apply evaluateCell_same_value. Qed.

Lemma value_is_unique_witness :
  evaluateCell [["5"; "7"]] 1 2 2 (Text "A1 B1") fresh =
    Done (Value (Int 12))
      (mkState ∅ [Recurse "A1" (Text "5") {[Text "5"]};
                  Recurse "B1" (Text "7") {[Text "7"]}]) ∧
  evaluateCell [["5"; "7"]] 1 2 3 (Text "A1 B1") (mkState {[Text "x"]} []) =
    Done (Value (Int 12))
      (mkState {[Text "x"]}
         [Recurse "A1" (Text "5") {[Text "5"; Text "x"]};
          Recurse "B1" (Text "7") {[Text "7"; Text "x"]}]) ∧
  Int 12 = Int 12.
Proof.
  assert (evaluateCell [["5"; "7"]] 1 2 2 (Text "A1 B1") fresh =
    Done (Value (Int 12))
      (mkState ∅ [Recurse "A1" (Text "5") {[Text "5"]};
                  Recurse "B1" (Text "7") {[Text "7"]}])) as H1
    by (vm_compute; reflexivity).
  assert (evaluateCell [["5"; "7"]] 1 2 3 (Text "A1 B1") (mkState {[Text "x"]} []) =
    Done (Value (Int 12))
      (mkState {[Text "x"]}
         [Recurse "A1" (Text "5") {[Text "5"; Text "x"]};
          Recurse "B1" (Text "7") {[Text "7"; Text "x"]}])) as H2
    by (vm_compute; reflexivity).
  split; [exact H1|]. split; [exact H2|].
  exact (value_is_unique [["5"; "7"]] 1 2 2 3 (Text "A1 B1") _ _ _ _ _ _ H1 H2).
Defined.

(** X9.  Errors propagate to dependants: if a cell text has a reference
    (inside the bounds) to a cell whose own text evaluates, from a fresh
    set, to the error marker, then the text evaluates to the error
    marker, from every Visited Set. *)
Theorem reference_to_failing_cell_fails
    (initialCells : list (list string)) (numRows numCols : Z)
    (s : string) (q : nat * nat) (t : string) (st : state) :
  has_rows initialCells numRows →
  refers numRows numCols s q →
  content initialCells q = Some t →
  evaluate_fresh initialCells numRows numCols t = ERR →
  ∃ st', ∀ k,
    evaluateCell initialCells numRows numCols
      (depth_bound initialCells st + k) (Text s) st = Done ERR st'.
Proof.
  intros Hrows Href Hq Hfail. apply evaluateCell_ERR_plus; [done|].
  intros fuel v st'. by eapply failing_reference_never_Value.
Qed.

Lemma reference_to_failing_cell_fails_witness :
  has_rows [["5 B1"; "C1"; "oops"]] 1 ∧
  refers 1 3 "5 B1" (O, 1%nat) ∧
  content [["5 B1"; "C1"; "oops"]] (O, 1%nat) = Some "C1" ∧
  evaluate_fresh [["5 B1"; "C1"; "oops"]] 1 3 "C1" = ERR ∧
  ∃ st', ∀ k,
    evaluateCell [["5 B1"; "C1"; "oops"]] 1 3
      (depth_bound [["5 B1"; "C1"; "oops"]] fresh + k) (Text "5 B1") fresh =
      Done ERR st'.
Proof.
  assert (has_rows [["5 B1"; "C1"; "oops"]] 1) as Hrows
    by (unfold has_rows; cbn; lia).
  assert (refers 1 3 "5 B1" (O, 1%nat)) as Href.
  { exists "B1". split; [|by repeat split].
    change (split " " "5 B1") with ["5"; "B1"]. apply elem_of_cons; right.
    apply elem_of_cons; by left. }
  assert (evaluate_fresh [["5 B1"; "C1"; "oops"]] 1 3 "C1" = ERR) as Hfail
    by (vm_compute; reflexivity).
  split; [exact Hrows|]. split; [exact Href|]. split; [reflexivity|].
  split; [exact Hfail|].
  exact (reference_to_failing_cell_fails [["5 B1"; "C1"; "oops"]] 1 3
           "5 B1" (O, 1%nat) "C1" fresh Hrows Href eq_refl Hfail).
Defined.

(** X10.  Whether a text evaluates to a number is decided part by part:
    when two texts both run to a result from a state, the text made of
    the first, a space and the second runs to a result from that state
    too, and that result is the error marker exactly when one of the two
    parts gives the error marker.  If the first part fails, the joined
    text ends in the very state the first part ends in: the second part
    is not looked at. *)
Theorem joined_text_fails_iff_a_part_fails
    (initialCells : list (list string)) (numRows numCols : Z)
    (fuel : nat) (s1 s2 : string) (st : state)
    (r1 : result) (st1 : state) (r2 : result) (st2 : state) :
  evaluateCell initialCells numRows numCols fuel (Text s1) st = Done r1 st1 →
  evaluateCell initialCells numRows numCols fuel (Text s2) st = Done r2 st2 →
  ∃ r st',
    evaluateCell initialCells numRows numCols fuel (Text (s1 ++ " " ++ s2)) st =
      Done r st' ∧
    (r = ERR ↔ r1 = ERR ∨ r2 = ERR) ∧
    (r1 = ERR → st' = st1).
Proof. apply evaluateCell_joined. Qed.

Lemma joined_text_fails_iff_a_part_fails_witness :
  evaluateCell [["5"; "x"]] 1 2 2 (Text "A1 1") fresh =
    Done (Value (Int 6)) (mkState ∅ [Recurse "A1" (Text "5") {[Text "5"]}]) ∧
  evaluateCell [["5"; "x"]] 1 2 2 (Text "B1") fresh =
    Done ERR (mkState {[Text "x"]}
                [Recurse "B1" (Text "x") {[Text "x"]};
                 ConsoleError (msg_invalid "x")]) ∧
  ∃ r st',
    evaluateCell [["5"; "x"]] 1 2 2 (Text ("A1 1" ++ " " ++ "B1")) fresh =
      Done r st' ∧
    (r = ERR ↔ Value (Int 6) = ERR ∨ ERR = ERR) ∧
    (Value (Int 6) = ERR →
     st' = mkState ∅ [Recurse "A1" (Text "5") {[Text "5"]}]).
Proof.
  assert (evaluateCell [["5"; "x"]] 1 2 2 (Text "A1 1") fresh =
    Done (Value (Int 6)) (mkState ∅ [Recurse "A1" (Text "5") {[Text "5"]}]))
    as H1 by (vm_compute; reflexivity).
  assert (evaluateCell [["5"; "x"]] 1 2 2 (Text "B1") fresh =
    Done ERR (mkState {[Text "x"]}
                [Recurse "B1" (Text "x") {[Text "x"]};
                 ConsoleError (msg_invalid "x")]))
    as H2 by (vm_compute; reflexivity).
  split; [exact H1|]. split; [exact H2|].
  exact (joined_text_fails_iff_a_part_fails [["5"; "x"]] 1 2 2 "A1 1" "B1" fresh
           _ _ _ _ H1 H2).
Defined.

(** X11.  Entries that never evaluate to a number are harmless: from a
    Visited Set that holds only such entries, a call of [evaluateCell]
    returns what the same cell returns from a fresh, empty set, and the
    set it leaves behind again holds only entries that never evaluate to
    a number. *)
Theorem failing_entries_are_harmless
    (initialCells : list (list string)) (numRows numCols : Z)
    (fuel : nat) (c : cell) (st : state) (r : result) (st' : state) :
  has_rows initialCells numRows →
  only_failing initialCells numRows numCols (visitedCells st) →
  evaluateCell initialCells numRows numCols fuel c st = Done r st' →
  (∃ st'', ∀ k,
     evaluateCell initialCells numRows numCols
       (driver_fuel initialCells + k) c fresh = Done r st'') ∧
  only_failing initialCells numRows numCols (visitedCells st').
Proof.
  intros Hrows Hfail Hrun. split.
  - by eapply evaluateCell_as_fresh.
  - by eapply evaluateCell_keeps_only_failing.
Qed.

Lemma failing_entries_are_harmless_witness :
  has_rows twin_grid 1 ∧
  only_failing twin_grid 1 4 (visitedCells fresh) ∧
  evaluateCell twin_grid 1 4 2 (Text "B1") fresh =
    Done ERR (mkState {[Text "x"]}
                [Recurse "B1" (Text "x") {[Text "x"]};
                 ConsoleError (msg_invalid "x")]) ∧
  (∃ st'', ∀ k,
     evaluateCell twin_grid 1 4 (driver_fuel twin_grid + k) (Text "B1") fresh =
       Done ERR st'') ∧
  only_failing twin_grid 1 4 {[Text "x"]}.
Proof.
  assert (has_rows twin_grid 1) as Hrows by (unfold has_rows; cbn; lia).
  assert (evaluateCell twin_grid 1 4 2 (Text "B1") fresh =
    Done ERR (mkState {[Text "x"]}
                [Recurse "B1" (Text "x") {[Text "x"]};
                 ConsoleError (msg_invalid "x")])) as Hrun
    by (vm_compute; reflexivity).
  split; [exact Hrows|]. split; [exact (only_failing_empty twin_grid 1 4)|].
  split; [exact Hrun|].
  exact (failing_entries_are_harmless twin_grid 1 4 2 (Text "B1") fresh ERR _
           Hrows (only_failing_empty twin_grid 1 4) Hrun).
Defined.

(** X22.  Every call of [evaluateCell] runs to completion: with a
    recursion depth of one more than the number of grid values not yet
    in the Visited Set the evaluation ends, and any further depth gives
    the same outcome.  In a grid that has a row for every admitted row
    index the call returns without throwing; what it returns is a number
    (NaN included) or the error marker. *)
Theorem evaluateCell_terminates
    (initialCells : list (list string)) (numRows numCols : Z)
    (c : cell) (st : state) :
  (∃ st', ∀ k,
     final_state
       (evaluateCell initialCells numRows numCols
          (depth_bound initialCells st + k) c st) = Some st') ∧
  (has_rows initialCells numRows →
   ∃ r st', ∀ k,
     evaluateCell initialCells numRows numCols
       (depth_bound initialCells st + k) c st = Done r st').
Proof.
  destruct (evaluateCell_total initialCells numRows numCols c st) as [Hfin Hmono].
  split.
  - destruct (evaluateCell initialCells numRows numCols
                (depth_bound initialCells st) c st) as [r st'|e st'|] eqn:Hrun;
      [exists st'|exists st'|done];
      intros k; rewrite Hmono by lia; done.
  - intros Hrows.
    destruct (evaluateCell initialCells numRows numCols
                (depth_bound initialCells st) c st) as [r st'|e st'|] eqn:Hrun.
    + exists r, st'. intros k. rewrite Hmono by lia. done.
    + by apply evaluateCell_no_throw in Hrun.
    + done.
Qed.

Lemma evaluateCell_terminates_witness :
  has_rows loop_grid 1 ∧
  ∃ r st', ∀ k,
    evaluateCell loop_grid 1 2 (depth_bound loop_grid fresh + k) (Text "A1") fresh =
      Done r st'.
Proof.
  assert (has_rows loop_grid 1) as Hrows by (unfold has_rows; cbn; lia).
  split; [exact Hrows|].
  exact (proj2 (evaluateCell_terminates loop_grid 1 2 (Text "A1") fresh) Hrows).
Defined.

(** ** Runs of [processCSV] *)

(** X12.  On an input all of whose rows have the field count of the
    first row, [processCSV] ends normally: it calls the evaluator once
    for every cell, row by row, and then prints once.  Although all
    cells share one Visited Set, the printed text is what evaluating
    every cell from a fresh, empty set gives: one line per row, one
    field per cell.  (The fresh evaluation of any text over the built
    grid always returns.) *)
Theorem consistent_input_prints_fresh_results (csvData : string) :
  Forall (λ line, length (split "," line) = width csvData) (rows_of csvData) →
  (∃ st,
     (∀ k, processCSV (driver_fuel (grid_of csvData) + k) csvData = Done tt st) ∧
     printed (trace st) = [expected_output csvData] ∧
     last (trace st) = Some (ConsoleLog (expected_output csvData)) ∧
     invoked (trace st) =
       cells_of_rows O (length (rows_of csvData)) (width csvData)) ∧
  (∀ t, ∃ st', ∀ k,
     evaluateCell (grid_of csvData) (Z.of_nat (length (rows_of csvData)))
       (Z.of_nat (width csvData)) (driver_fuel (grid_of csvData) + k)
       (Text t) fresh =
     Done (evaluate_fresh (grid_of csvData) (Z.of_nat (length (rows_of csvData)))
             (Z.of_nat (width csvData)) t) st').
Proof.
  intros Hall. split; [by apply processCSV_consistent|].
  intros t.
  destruct (evaluateCell_returns (driver_fuel (grid_of csvData))
              (grid_of csvData) _ (width csvData)
              (grid_of_has_rows csvData) ltac:(done) (Text t) fresh)
    as (r & st' & Hrun).
  exists st'. intros k. rewrite evaluateCell_driver_fuel by lia.
  unfold evaluate_fresh. by rewrite Hrun.
Qed.

Lemma consistent_input_prints_fresh_results_witness :
  Forall (λ line, length (split "," line) = width twin_csv) (rows_of twin_csv) ∧
  expected_output twin_csv = "#ERR,#ERR,#ERR,#ERR" ∧
  ∃ st,
    (∀ k, processCSV (driver_fuel (grid_of twin_csv) + k) twin_csv = Done tt st) ∧
    printed (trace st) = [expected_output twin_csv] ∧
    last (trace st) = Some (ConsoleLog (expected_output twin_csv)) ∧
    invoked (trace st) =
      cells_of_rows O (length (rows_of twin_csv)) (width twin_csv).
Proof.
  assert (Forall (λ line, length (split "," line) = width twin_csv)
            (rows_of twin_csv)) as Hall.
  { change (rows_of twin_csv) with ["B1,x,x,C1"]. repeat constructor. }
  split; [exact Hall|]. split; [vm_compute; reflexivity|].
  exact (proj1 (consistent_input_prints_fresh_results twin_csv Hall)).
Defined.

(** X13.  The only error a run of [processCSV] throws is the
    inconsistent-columns error, and only on an input that has a row
    whose field count differs from that of the first row: no input makes
    [initializeCells] reject the dimensions, and no cell makes the run
    fail. *)
Theorem processCSV_throws_only_inconsistent_columns
    (fuel : nat) (csvData : string) (e : error) (st : state) :
  processCSV fuel csvData = Thrown e st →
  e = Error msg_inconsistent ∧
  ∃ i line, rows_of csvData !! i = Some line ∧
            length (split "," line) ≠ width csvData.
Proof. apply processCSV_throws. Qed.

Lemma processCSV_throws_only_inconsistent_columns_witness :
  processCSV 1 ragged_csv =
    Thrown (Error msg_inconsistent)
      (mkState ∅
         [Invoke 0 0 (Text "1") ∅; Invoke 0 1 (Text "2") ∅;
          Invoke 0 2 (Text "3") ∅; ConsoleError (msg_inconsistent_log 1)]) ∧
  Error msg_inconsistent = Error msg_inconsistent ∧
  ∃ i line, rows_of ragged_csv !! i = Some line ∧
            length (split "," line) ≠ width ragged_csv.
Proof.
  assert (processCSV 1 ragged_csv =
    Thrown (Error msg_inconsistent)
      (mkState ∅
         [Invoke 0 0 (Text "1") ∅; Invoke 0 1 (Text "2") ∅;
          Invoke 0 2 (Text "3") ∅; ConsoleError (msg_inconsistent_log 1)]))
    as Hrun by (vm_compute; reflexivity).
  split; [exact Hrun|].
  exact (processCSV_throws_only_inconsistent_columns 1 ragged_csv _ _ Hrun).
Defined.

(** X14.  [processCSV] does not reject a blank input (that is left to
    [evaluateCSVFile]): on every input that is empty or white space only
    it evaluates the one empty cell, reports the empty token and prints
    the error marker. *)
Theorem blank_input_prints_error_marker (fuel : nat) (csvData : string) :
  trim csvData = "" →
  processCSV (S fuel) csvData =
    Done tt (mkState ∅ [Invoke 0 0 (Text "") ∅;
                        ConsoleError msg_empty_token;
                        ConsoleLog "#ERR"]).
Proof. apply processCSV_blank. Qed.

Lemma blank_input_prints_error_marker_witness :
  trim (" " ++ CRLF ++ " ") = "" ∧
  processCSV 1 (" " ++ CRLF ++ " ") =
    Done tt (mkState ∅ [Invoke 0 0 (Text "") ∅;
                        ConsoleError msg_empty_token;
                        ConsoleLog "#ERR"]).
Proof.
  split; [reflexivity|].
  exact (blank_input_prints_error_marker O (" " ++ CRLF ++ " ") eq_refl).
Defined.

(** X21.  In every run of [processCSV], a call of [evaluateCell] for a
    cell that no [console.error] precedes is handed an empty Visited
    Set: entries stay in the shared set only after an evaluation that
    reported an error. *)
Theorem visited_set_empty_until_first_error
    (fuel : nat) (csvData : string) (st : state)
    (before after : list event) (row col : nat) (c : cell) (V : gset cell) :
  final_state (processCSV fuel csvData) = Some st →
  trace st = (before ++ Invoke row col c V :: after)%list →
  silent before = true →
  V = ∅.
Proof.
  intros Hrun Htrace Hsilent.
  apply processCSV_clean in Hrun. rewrite Htrace in Hrun.
  by eapply clean_from_split.
Qed.

Lemma visited_set_empty_until_first_error_witness :
  final_state (processCSV 2 "1,2") =
    Some (mkState ∅ [Invoke 0 0 (Text "1") ∅; Invoke 0 1 (Text "2") ∅;
                     ConsoleLog "1,2"]) ∧
  silent [Invoke 0 0 (Text "1") ∅] = true ∧
  (∅ : gset cell) = ∅.
Proof.
  assert (final_state (processCSV 2 "1,2") =
    Some (mkState ∅ [Invoke 0 0 (Text "1") ∅; Invoke 0 1 (Text "2") ∅;
                     ConsoleLog "1,2"])) as Hrun by (vm_compute; reflexivity).
  split; [exact Hrun|]. split; [reflexivity|].
  exact (visited_set_empty_until_first_error 2 "1,2" _
           [Invoke 0 0 (Text "1") ∅] [ConsoleLog "1,2"] 0 1 (Text "2") ∅
           Hrun eq_refl eq_refl).
Defined.

(** ** References *)

(** X15.  Whatever token passes the reference pattern, [getCellIndices]
    gives a column between 0 and 25 and a row that is NaN or between -1
    and 98: no reference reaches a cell beyond row 99 or column Z. *)
Theorem references_reach_99_rows_26_columns (token : string) :
  cellRefRegex_test token = true →
  (∃ col, (getCellIndices token).2 = Int col ∧ 0 <= col <= 25) ∧
  ((getCellIndices token).1 = NaN ∨
   ∃ row, (getCellIndices token).1 = Int row ∧ -1 <= row <= 98).
Proof. apply reference_range. Qed.

Lemma references_reach_99_rows_26_columns_witness :
  cellRefRegex_test "Z99" = true ∧
  (∃ col, (getCellIndices "Z99").2 = Int col ∧ 0 <= col <= 25) ∧
  ((getCellIndices "Z99").1 = NaN ∨
   ∃ row, (getCellIndices "Z99").1 = Int row ∧ -1 <= row <= 98).
Proof.
  split; [reflexivity|].
  exact (references_reach_99_rows_26_columns "Z99" eq_refl).
Defined.

(** X16.  A reference with two or more leading capitals is never
    resolved: its row is NaN, the bounds check rejects it for all
    dimensions, and a cell text that has such a token evaluates to the
    error marker. *)
Theorem multi_letter_reference_is_error
    (initialCells : list (list string)) (numRows numCols : Z)
    (s : string) (l1 l2 : ascii) (rest : string) (st : state) :
  has_rows initialCells numRows →
  String l1 (String l2 rest) ∈ split " " s →
  cellRefRegex_test (String l1 (String l2 rest)) = true →
  is_upper l2 = true →
  (getCellIndices (String l1 (String l2 rest))).1 = NaN ∧
  ∃ st', ∀ k,
    evaluateCell initialCells numRows numCols
      (depth_bound initialCells st + k) (Text s) st = Done ERR st'.
Proof.
  intros Hrows Hin Hregex H2.
  assert (is_upper l1 = true) as H1.
  { unfold cellRefRegex_test in Hregex. cbn [regex_run regex_step] in Hregex.
    by destruct (is_upper l1). }
  destruct (two_letters_out_of_bounds l1 l2 rest numRows numCols H1 H2)
    as [Hrow Hout].
  split; [done|]. apply evaluateCell_ERR_plus; [done|].
  intros fuel v st'. by eapply out_of_bounds_never_Value.
Qed.

Lemma multi_letter_reference_is_error_witness :
  has_rows [["5"]] 1 ∧
  "AA1" ∈ split " " "1 AA1" ∧
  cellRefRegex_test "AA1" = true ∧
  is_upper "A" = true ∧
  (getCellIndices "AA1").1 = NaN ∧
  ∃ st', ∀ k,
    evaluateCell [["5"]] 1 1 (depth_bound [["5"]] fresh + k) (Text "1 AA1") fresh =
      Done ERR st'.
Proof.
  assert (has_rows [["5"]] 1) as Hrows by (unfold has_rows; cbn; lia).
  assert ("AA1" ∈ split " " "1 AA1") as Hin.
  { change (split " " "1 AA1") with ["1"; "AA1"]. apply elem_of_cons; right.
    apply elem_of_cons; by left. }
  split; [exact Hrows|]. split; [exact Hin|]. do 2 (split; [reflexivity|]).
  exact (multi_letter_reference_is_error [["5"]] 1 1 "1 AA1" "A" "A" "1" fresh
           Hrows Hin eq_refl eq_refl).
Defined.

(** X17.  The bounds check admits a reference of one capital letter and
    one or two digits exactly when the digits denote a number from 1 to
    [numRows] and the letter's offset from "A" is below [numCols]; in
    particular row 0 ("A0", "A00") is never admitted. *)
Theorem accepted_single_letter_references
    (letter : ascii) (digits : string) (numRows numCols : Z) :
  is_upper letter = true →
  all_chars is_digit digits = true →
  (1 ≤ String.length digits ≤ 2)%nat →
  in_bounds numRows numCols
    (getCellIndices (String letter digits)).1
    (getCellIndices (String letter digits)).2 = true ↔
  1 <= decimal_value 0 digits <= numRows ∧ code letter - 65 < numCols.
Proof. apply single_letter_in_bounds. Qed.

Lemma accepted_single_letter_references_witness :
  is_upper "B" = true ∧ all_chars is_digit "03" = true ∧
  (1 ≤ String.length "03" ≤ 2)%nat ∧
  (in_bounds 3 2 (getCellIndices "B03").1 (getCellIndices "B03").2 = true ↔
   1 <= decimal_value 0 "03" <= 3 ∧ code "B" - 65 < 2).
Proof.
  assert (1 ≤ String.length "03" ≤ 2)%nat as Hlen by (cbn; lia).
  do 2 (split; [reflexivity|]). split; [exact Hlen|].
  exact (accepted_single_letter_references "B" "03" 3 2 eq_refl eq_refl Hlen).
Defined.

(** X18.  A reference that the bounds check admits into a row the grid
    does not have (numRows exceeds the grid) makes [evaluateCell] throw
    a TypeError instead of returning the error marker: after the tokens
    before it, the call ends with the exception and writes nothing. *)
Theorem reference_to_missing_row_throws
    (initialCells : list (list string)) (numRows numCols : Z)
    (fuel : nat) (s : string) (pre : list string) (token : string)
    (post : list string) (st : state) (sum : number) (st1 : state)
    (row : Z) (col : number) :
  split " " s = (pre ++ token :: post)%list →
  evalTokens initialCells numRows numCols
    (evaluateCell initialCells numRows numCols fuel) pre (Int 0) st =
    Done (Value sum) st1 →
  cellRefRegex_test token = true →
  getCellIndices token = (Int row, col) →
  in_bounds numRows numCols (Int row) col = true →
  Z.of_nat (length initialCells) <= row →
  evaluateCell initialCells numRows numCols (S fuel) (Text s) st =
    Thrown TypeError st1.
Proof.
  intros Hsplit Hpre Hregex Hindices Hbounds Hrow.
  cbn [evaluateCell]. rewrite Hsplit. by eapply evalTokens_missing_row.
Qed.

Lemma reference_to_missing_row_throws_witness :
  split " " "A2" = ([] ++ "A2" :: [])%list ∧
  evalTokens [["1"]] 3 3 (evaluateCell [["1"]] 3 3 0) [] (Int 0) fresh =
    Done (Value (Int 0)) fresh ∧
  cellRefRegex_test "A2" = true ∧
  getCellIndices "A2" = (Int 1, Int 0) ∧
  in_bounds 3 3 (Int 1) (Int 0) = true ∧
  Z.of_nat (length [["1"]]) <= 1 ∧
  evaluateCell [["1"]] 3 3 1 (Text "A2") fresh = Thrown TypeError fresh.
Proof.
  assert (Z.of_nat (length [["1"]]) <= 1) as Hrow by (cbn; lia).
  do 5 (split; [reflexivity|]). split; [exact Hrow|].
  exact (reference_to_missing_row_throws [["1"]] 3 3 O "A2" [] "A2" [] fresh
           (Int 0) fresh 1 (Int 0) eq_refl eq_refl eq_refl eq_refl eq_refl Hrow).
Defined.

(** X19.  A reference that the bounds check admits to a column that its
    row does not have reads [undefined], and the text evaluates to the
    error marker either way.  If [undefined] is not in the Visited Set,
    it is added, the recursive call reports the empty cell value, and
    [undefined] stays in the set.  If [undefined] is in the set already
    (as after an earlier reference of this kind), the reference is
    reported as a circular dependence and no recursive call is made. *)
Theorem reference_to_missing_column_is_error
    (initialCells : list (list string)) (numRows numCols : Z)
    (fuel : nat) (s : string) (pre : list string) (token : string)
    (post : list string) (st : state) (sum : number) (st1 : state)
    (row col : Z) (cells : list string) :
  split " " s = (pre ++ token :: post)%list →
  evalTokens initialCells numRows numCols
    (evaluateCell initialCells numRows numCols (S fuel)) pre (Int 0) st =
    Done (Value sum) st1 →
  cellRefRegex_test token = true →
  getCellIndices token = (Int row, Int col) →
  in_bounds numRows numCols (Int row) (Int col) = true →
  initialCells !! Z.to_nat row = Some cells →
  Z.of_nat (length cells) <= col →
  evaluateCell initialCells numRows numCols (S (S fuel)) (Text s) st =
    Done ERR
      (if bool_decide (Undefined ∈ visitedCells st1)
       then console_error
              ("Circular dependence detected in cell '" ++ token ++
               "'.Defaulting them to #ERR") st1
       else console_error "Empty cell value found. Defaulting to #ERR"
              (emit (Recurse token Undefined ({[Undefined]} ∪ visitedCells st1))
                 (visited_add Undefined st1))).
Proof.
  intros Hsplit Hpre Hregex Hindices Hbounds Hrow Hcol.
  cbn [evaluateCell]. rewrite Hsplit. by eapply evalTokens_missing_column.
Qed.

Lemma reference_to_missing_column_is_error_witness :
  split " " "B1" = ([] ++ "B1" :: [])%list ∧
  evalTokens [["1"]] 1 2 (evaluateCell [["1"]] 1 2 1) [] (Int 0)
    (mkState {[Undefined]} []) = Done (Value (Int 0)) (mkState {[Undefined]} []) ∧
  cellRefRegex_test "B1" = true ∧
  getCellIndices "B1" = (Int 0, Int 1) ∧
  in_bounds 1 2 (Int 0) (Int 1) = true ∧
  [["1"]] !! Z.to_nat 0 = Some ["1"] ∧
  Z.of_nat (length ["1"]) <= 1 ∧
  bool_decide (Undefined ∈ visitedCells (mkState {[Undefined]} [])) = true ∧
  evaluateCell [["1"]] 1 2 2 (Text "B1") (mkState {[Undefined]} []) =
    Done ERR
      (if bool_decide (Undefined ∈ visitedCells (mkState {[Undefined]} []))
       then console_error
              "Circular dependence detected in cell 'B1'.Defaulting them to #ERR"
              (mkState {[Undefined]} [])
       else console_error "Empty cell value found. Defaulting to #ERR"
              (emit (Recurse "B1" Undefined
                       ({[Undefined]} ∪ visitedCells (mkState {[Undefined]} [])))
                 (visited_add Undefined (mkState {[Undefined]} [])))).
Proof.
  assert (Z.of_nat (length ["1"]) <= 1) as Hcol by (cbn; lia).
  do 6 (split; [reflexivity|]). split; [exact Hcol|].
  split; [vm_compute; reflexivity|].
  exact (reference_to_missing_column_is_error [["1"]] 1 2 O "B1" [] "B1" []
           (mkState {[Undefined]} []) (Int 0) (mkState {[Undefined]} []) 0 1 ["1"]
           eq_refl eq_refl eq_refl eq_refl eq_refl eq_refl Hcol).
Defined.

(** X20.  The return value and the console agree: a call of
    [evaluateCell] that returns a number writes no [console.error], and
    a call that returns the error marker writes exactly one. *)
Theorem diagnostics_match_result
    (initialCells : list (list string)) (numRows numCols : Z)
    (fuel : nat) (c : cell) (st : state) (r : result) (st' : state) :
  evaluateCell initialCells numRows numCols fuel c st = Done r st' →
  match r with
  | Value _ => errors (trace st') = errors (trace st)
  | ERR => ∃ msg, errors (trace st') = (errors (trace st) ++ [msg])%list
  end.
Proof.
  intros Hrun.
  pose proof (evaluateCell_reported initialCells numRows numCols fuel c st) as H.
  rewrite Hrun in H. by destruct r.
Qed.

Lemma diagnostics_match_result_witness :
  evaluateCell loop_grid 1 2 3 (Text "7 A1") fresh =
    Done ERR (mkState {[Text "A1"; Text "B1"]}
                [Recurse "A1" (Text "B1") {[Text "B1"]};
                 Recurse "B1" (Text "A1") {[Text "A1"; Text "B1"]};
                 ConsoleError (msg_circular "A1")]) ∧
  ∃ msg,
    errors [Recurse "A1" (Text "B1") {[Text "B1"]};
            Recurse "B1" (Text "A1") {[Text "A1"; Text "B1"]};
            ConsoleError (msg_circular "A1")] =
      (errors (trace fresh) ++ [msg])%list.
Proof.
  assert (evaluateCell loop_grid 1 2 3 (Text "7 A1") fresh =
    Done ERR (mkState {[Text "A1"; Text "B1"]}
                [Recurse "A1" (Text "B1") {[Text "B1"]};
                 Recurse "B1" (Text "A1") {[Text "A1"; Text "B1"]};
                 ConsoleError (msg_circular "A1")])) as Hrun
    by (vm_compute; reflexivity).
  split; [exact Hrun|].
  exact (diagnostics_match_result loop_grid 1 2 3 (Text "7 A1") fresh ERR _ Hrun).
Defined.

(** * Checks against the tests of the repository *)


Example test_getCellIndices :
  getCellIndices "A12" = (Int 11, Int 0) ∧ getCellIndices "D5" = (Int 4, Int 3).
Proof. by split. Qed.

Example test_initializeCells :
  initializeCells 2 3 = inr [[""; ""; ""]; [""; ""; ""]] ∧
  initializeCells (-2) 3 = inl (Error msg_invalid_dimensions).
Proof. by split. Qed.

Example test_sum : evaluateCell [] 3 3 1 (Text "1 2 3") fresh = Done (Value (Int 6)) fresh.
Proof. by vm_compute. Qed.

Example test_self_reference :
  evaluateCell self_grid 3 3 2 (Text "A1") fresh =
    Done ERR (mkState {[Text "A1"]}
                [Recurse "A1" (Text "A1") {[Text "A1"]};
                 ConsoleError "Circular dependence detected in cell 'A1'.Defaulting them to #ERR"]).
Proof. by vm_compute. Qed.

Example test_multiple_circular :
  evaluateCell [["A1"]; ["B1"]] 2 2 2 (Text "A1") fresh =
    Done ERR (mkState {[Text "A1"]}
                [Recurse "A1" (Text "A1") {[Text "A1"]};
                 ConsoleError "Circular dependence detected in cell 'A1'.Defaulting them to #ERR"]).
Proof. by vm_compute. Qed.

Example test_out_of_bounds :
  evaluateCell [["1"]; ["2"]; ["3"]] 3 3 1 (Text "A4") fresh =
    Done ERR (mkState ∅
                [ConsoleError "Cell references an out of bounds cell ->'A4'.Defaulting cell value to #ERR"]).
Proof. by vm_compute. Qed.

Example test_empty_cell :
  evaluateCell [["1"]; ["2"]; []] 3 3 1 (Text "") fresh =
    Done ERR (mkState ∅ [ConsoleError "Empty token found. Defaulting to #ERR"]).
Proof. by vm_compute. Qed.

Example test_invalid_format :
  evaluateCell [] 0 0 1 (Text "###a32432") fresh =
    Done ERR (mkState ∅
                [ConsoleError "Invalid cell value format -> '###a32432'. Verify. Defaulting to #ERR."]).
Proof. by vm_compute. Qed.

(** The test input of [processCSV] separates its rows by a line feed
    alone, so the run sees one row of seven fields and prints once. *)
Example test_processCSV :
  printed (default [] (trace <$> final_state
     (processCSV 1 ("1,2,3" ++ LF ++ "4,5,6" ++ LF ++ "7,8,9")))) =
    ["1,2,7,5,13,8,9"].
Proof. by vm_compute. Qed.

Example test_processCSV_rows :
  printed (default [] (trace <$> final_state
     (processCSV 1 ("1,2,3" ++ CRLF ++ "4,5,6" ++ CRLF ++ "7,8,9")))) =
    ["1,2,3" ++ LF ++ "4,5,6" ++ LF ++ "7,8,9"].
Proof. by vm_compute. Qed.

Example test_numeric_strings :
  isNaN "1.5" = false ∧ isNaN "1e3" = false ∧ isNaN "0x1F" = false ∧
  isNaN "Infinity" = false ∧ isNaN "-.5" = false ∧ isNaN "5." = false ∧
  isNaN "0b101" = false ∧ isNaN "." = true ∧ isNaN "1e" = true ∧
  isNaN "-0x10" = true ∧ isNaN "12px" = true ∧ isNaN "A1" = true ∧
  parseInt "1.5" = Int 1 ∧ parseInt "1e3" = Int 1 ∧ parseInt "0x1F" = Int 31 ∧
  parseInt "Infinity" = NaN ∧ parseInt "-.5" = NaN ∧ parseInt "0b101" = Int 0 ∧
  parseInt "-12" = Int (-12) ∧ parseInt "08" = Int 8.
Proof. repeat split; reflexivity. Qed.

Example test_strings :
  trim "  a b  " = "a b" ∧ normalize " 1   2 " = "1 2" ∧
  split " " "A1  B2" = ["A1"; ""; "B2"] ∧ split " " "" = [""] ∧
  split "," "1,,2," = ["1"; ""; "2"; ""] ∧
  split CRLF ("a,b" ++ CRLF ++ "c") = ["a,b"; "c"] ∧
  join "," ["1"; "#ERR"; "3"] = "1,#ERR,3".
Proof. repeat split; reflexivity. Qed.

Example test_pattern :
  cellRefRegex_test "A1" = true ∧ cellRefRegex_test "AB12" = true ∧
  cellRefRegex_test "A123" = false ∧ cellRefRegex_test "a1" = false ∧
  cellRefRegex_test "A" = false ∧ cellRefRegex_test "1" = false ∧
  cellRefRegex_test "A1 B22" = true ∧ cellRefRegex_test "A1 " = false.
Proof. repeat split; reflexivity. Qed.
